(** * Street Hunt API (index.js): the game-state engine and its inputs

    A shallow embedding of [src/index.js]: the numeric helpers ([clamp],
    [parseInt], [distMeters]), room creation, the location upsert, and the
    state request (zone radius, catch detection, visibility projection).

    Conventions of the embedding.
    - A JavaScript number is a [num]: [NaN], the two infinities, or a finite
      value carried as a rational.  Integer quantities that the code only
      adds, multiplies and floor-divides (radii, step counts, millisecond
      timestamps) are carried as [Z]; binary64 arithmetic on them is exact
      below 2^53, which is the range the model speaks about.  Where a
      number comes from a numeral of any length ([parseInt], a JSON
      number), the integer is rounded to its binary64 value
      ([to_binary64]).
    - Strings are ASCII strings; [toUpperCase] and the white space skipped
      by [parseInt] are the ASCII ones.
    - The trigonometric tail of [distMeters] (lines 63-73, built from
      [Math.sin], [Math.cos], [Math.atan2], [Math.sqrt]) is a parameter
      [haversine] of the engine section; the null guard in front of it is
      modelled as written.
    - The SQLite tables are lists of rows in row order; a JS object used as
      a map keyed by player id is an association list in insertion order
      (ids are UUID strings, so [for ... in] enumerates insertion order). *)

From Stdlib Require Import ZArith QArith Qround Qabs Bool List String Ascii Lia.
From Stdlib Require Import Decimal DecimalString DecimalN.
Import ListNotations.
Local Open Scope string_scope.
Local Open Scope Z_scope.

(** ** JavaScript numbers *)

Inductive num : Type :=
| NaN
| PInf
| NInf
| Fin (q : Q).

Definition num_of_Z (z : Z) : num := Fin (inject_Z z).

(** [a <= b] on numbers: false as soon as one side is [NaN]. *)
Definition num_le (a b : num) : bool :=
  match a, b with
  | NaN, _ | _, NaN => false
  | NInf, _ => true
  | _, PInf => true
  | PInf, _ => false
  | _, NInf => false
  | Fin x, Fin y => Qle_bool x y
  end.

(** [a < b] on numbers. *)
Definition num_lt (a b : num) : bool :=
  match a, b with
  | NaN, _ | _, NaN => false
  | PInf, _ => false
  | _, NInf => false
  | NInf, _ => true
  | _, PInf => true
  | Fin x, Fin y => negb (Qle_bool y x)
  end.

Definition num_finite (a : num) : bool :=
  match a with Fin _ => true | _ => false end.

(** [Math.max] and [Math.min] of two numbers: [NaN] is contagious. *)
Definition Math_max (a b : num) : num :=
  match a, b with
  | NaN, _ | _, NaN => NaN
  | _, _ => if num_le a b then b else a
  end.

Definition Math_min (a b : num) : num :=
  match a, b with
  | NaN, _ | _, NaN => NaN
  | _, _ => if num_le a b then a else b
  end.

(** [Math.round]: the nearest integer, ties towards +infinity. *)
Definition Math_round (a : num) : num :=
  match a with
  | Fin q => Fin (inject_Z (Qfloor (q + (1 # 2))))
  | _ => a
  end.

(** [const clamp = (v,min,max) => Math.max(min, Math.min(max, v))] *)
Definition clamp (v lo hi : num) : num := Math_max lo (Math_min hi v).

(** Membership of a number in a closed integer interval. *)
Definition in_range (lo hi : Z) (v : num) : Prop :=
  exists q, v = Fin q /\ (inject_Z lo <= q)%Q /\ (q <= inject_Z hi)%Q.

(** ** Integers as binary64 values *)

(** The integer of at most 53 significant bits nearest to [a >= 0]; of two
    equally near, the one whose 53rd bit is 0. *)
Definition round53 (a : Z) : Z :=
  let e := Z.log2 a in
  if e <? 53 then a
  else
    let sh := e - 52 in
    let q := Z.shiftr a sh in
    let r := a - Z.shiftl q sh in
    let half := Z.shiftl 1 (sh - 1) in
    let q' := if (half <? r) || ((r =? half) && Z.odd q) then q + 1 else q in
    Z.shiftl q' sh.

(** The Number value of a mathematical integer: the integer itself up to
    2^53 in magnitude, beyond that the nearest binary64 value, and an
    infinity once the rounded magnitude reaches 2^1024.  (A negative zero
    is not told from zero: the code only compares these numbers.) *)
Definition to_binary64 (z : Z) : num :=
  let m := round53 (Z.abs z) in
  if Z.log2 m <? 1024 then num_of_Z (Z.sgn z * m)
  else if z <? 0 then NInf else PInf.

(** ** [parseInt] *)

Definition is_ws (c : ascii) : bool :=
  let n := nat_of_ascii c in
  ((9 <=? n) && (n <=? 13))%nat || (n =? 32)%nat.

Fixpoint trim_start (s : string) : string :=
  match s with
  | String c t => if is_ws c then trim_start t else s
  | EmptyString => s
  end.

(** The value of [c] read as a digit, for any radix up to 36. *)
Definition digit_val (c : ascii) : option Z :=
  let n := Z.of_nat (nat_of_ascii c) in
  if (48 <=? n) && (n <=? 57) then Some (n - 48)
  else if (97 <=? n) && (n <=? 122) then Some (n - 87)
  else if (65 <=? n) && (n <=? 90) then Some (n - 55)
  else None.

Definition radix_digit (radix : Z) (c : ascii) : option Z :=
  match digit_val c with
  | Some d => if d <? radix then Some d else None
  | None => None
  end.

(** The longest prefix of radix digits, accumulated most significant first;
    [acc] is [None] until a digit has been read. *)
Fixpoint read_digits (radix : Z) (s : string) (acc : option Z) : option Z :=
  match s with
  | String c t =>
      match radix_digit radix c with
      | Some d =>
          read_digits radix t
            (Some (match acc with Some a => a * radix + d | None => d end))
      | None => acc
      end
  | EmptyString => acc
  end.

(** The sign in front of the digits, and the text after it. *)
Definition strip_sign (s : string) : Z * string :=
  match s with
  | String c t =>
      if (c =? "-")%char then (-1, t)
      else if (c =? "+")%char then (1, t)
      else (1, s)
  | EmptyString => (1, s)
  end.

(** The radix, 16 after a [0x] or [0X] prefix and 10 otherwise, and the
    text after the prefix. *)
Definition strip_prefix (s : string) : Z * string :=
  match s with
  | String c0 t0 =>
      if (c0 =? "0")%char then
        match t0 with
        | String c1 t =>
            if (c1 =? "x")%char || (c1 =? "X")%char then (16, t)
            else (10, s)
        | EmptyString => (10, s)
        end
      else (10, s)
  | EmptyString => (10, s)
  end.

(** [parseInt(s)] with no radix argument: skip white space, take a sign,
    switch to radix 16 on a [0x]/[0X] prefix, read the longest digit prefix;
    [NaN] when that prefix is empty.  The result is a Number: the integer
    read, as a binary64 value.  (The rounding is the correct one, as V8
    computes it; the language lets an engine neglect the decimal digits
    after the 20th.) *)
Definition parseInt_string (s : string) : num :=
  let '(sign, s2) := strip_sign (trim_start s) in
  let '(radix, s3) := strip_prefix s2 in
  match read_digits radix s3 None with
  | Some m => to_binary64 (sign * m)
  | None => NaN
  end.






(** The sign written in front of a numeral, if any. *)
Inductive sign : Type :=
| NoSign
| Plus
| Minus.



(** ** Values of a JSON request body

    The scalars a client can put in a body field whose use is [parseInt]:
    nothing, [null], a boolean, an integer number or a string.  [RInt z]
    is a number whose JSON text denotes the integer [z]; [JSON.parse]
    makes it the binary64 value [to_binary64 z]. *)

Inductive reqval : Type :=
| RUndefined
| RNull
| RBool (b : bool)
| RInt (z : Z)
| RStr (s : string).

(** *** [Number::toString] of an integer-valued number

    The digits printed are the fewest that read back as the same binary64
    value; up to 21 digits the numeral is written out, from 22 digits on
    the exponent form is used. *)

(** [v] read as a binary64 value is [a]. *)
Definition reads_as (a v : Z) : bool := round53 v =? a.

(** The integer that is printed for the binary64 value [a > 0]: among the
    multiples of the highest power of ten [10^t] that has a multiple
    reading as [a], the one nearest to [a], and of two equally near the
    one with an even last digit.  [t] counts down from the number of
    digits of [a]. *)
Fixpoint shortest_numeral (t : nat) (a : Z) : Z :=
  match t with
  | O => a
  | S t' =>
      let p := 10 ^ Z.of_nat t in
      let lo := a / p * p in
      let hi := lo + p in
      match reads_as a lo, reads_as a hi with
      | true, true =>
          if a - lo <? hi - a then lo
          else if hi - a <? a - lo then hi
          else if Z.even (lo / p) then lo else hi
      | true, false => lo
      | false, true => hi
      | false, false => shortest_numeral t' a
      end
  end.

Fixpoint strip_zeros (s : string) : string :=
  match s with
  | String c t =>
      match strip_zeros t with
      | EmptyString => if (c =? "0")%char then EmptyString else String c ""
      | t' => String c t'
      end
  | EmptyString => EmptyString
  end.

Definition digits_of (a : Z) : string :=
  NilEmpty.string_of_uint (N.to_uint (Z.to_N a)).

(** The printing of the binary64 value [a > 0] above 2^53. *)
Definition print_large (a : Z) : string :=
  let ds := digits_of (shortest_numeral (String.length (digits_of a)) a) in
  let n := String.length ds in
  if (n <=? 21)%nat then ds
  else
    match strip_zeros ds with
    | String d rest =>
        String d
          ((if (rest =? "")%string then "" else "." ++ rest)
           ++ "e+" ++ digits_of (Z.of_nat (n - 1)))
    | EmptyString => ds
    end.

Definition truthy (v : reqval) : bool :=
  match v with
  | RUndefined | RNull => false
  | RBool b => b
  | RInt z => negb (z =? 0)
  | RStr s => negb (s =? "")%string
  end.

(** [ToString].  An integer up to 2^53 in magnitude is a binary64 value
    and prints as its decimal numeral; a larger one prints as the binary64
    value it was rounded to. *)
Definition ToString (v : reqval) : string :=
  match v with
  | RUndefined => "undefined"
  | RNull => "null"
  | RBool true => "true"
  | RBool false => "false"
  | RInt z =>
      if Z.abs z <=? 9007199254740992
      then NilZero.string_of_int (Z.to_int z)
      else
        match to_binary64 z with
        | Fin _ =>
            append (if z <? 0 then "-" else "")
                   (print_large (round53 (Z.abs z)))
        | PInf => "Infinity"
        | NInf => "-Infinity"
        | NaN => "NaN"
        end
  | RStr s => s
  end.

Definition parseInt (v : reqval) : num := parseInt_string (ToString v).

(** [v || d] *)
Definition or_default (v d : reqval) : reqval := if truthy v then v else d.

(** ** The store: three SQLite tables *)

(** Coordinates as JavaScript sees them: absent, [null] or a number. *)
Inductive coord : Type :=
| CUndefined
| CNull
| CNum (n : num).

Record roomRow : Type := mkRoom {
  code : string;
  startRadius : option Z;
  shrinkStepSec : option Z;
  shrinkAmount : option Z;
  startedAt : option Z
}.

Record playerRow : Type := mkPlayerRow {
  p_id : string;
  p_room : string;
  p_name : string;
  p_role : string;
  p_status : option string;
  p_lastSeen : option Z
}.

Record locationRow : Type := mkLocation {
  l_playerId : string;
  l_lat : coord;
  l_lng : coord;
  l_ts : Z
}.

Record store : Type := mkStore {
  rooms : list roomRow;
  players : list playerRow;
  locations : list locationRow
}.

(** ** POST /rooms *)

Record roomBody : Type := mkRoomBody {
  b_startRadius : reqval;
  b_shrinkStepSec : reqval;
  b_shrinkAmount : reqval
}.

Record roomConfig : Type := mkRoomConfig {
  cfg_startRadius : num;
  cfg_shrinkStepSec : num;
  cfg_shrinkAmount : num
}.

(** Lines 80-82: the three values bound to the INSERT and echoed in the
    response. *)
Definition room_config (body : roomBody) : roomConfig :=
  {| cfg_startRadius :=
       clamp (parseInt (or_default (b_startRadius body) (RInt 800)))
             (num_of_Z 20) (num_of_Z 100000);
     cfg_shrinkStepSec :=
       clamp (parseInt (or_default (b_shrinkStepSec body) (RInt 20)))
             (num_of_Z 1) (num_of_Z 86400);
     cfg_shrinkAmount :=
       clamp (parseInt (or_default (b_shrinkAmount body) (RInt 50)))
             (num_of_Z 1) (num_of_Z 100000) |}.

(** What an INTEGER column holds after a number is bound to it: SQLite
    stores a [NaN] as NULL.  The numbers reaching it here are integral or
    [NaN]. *)
Definition sql_integer (n : num) : option Z :=
  match n with
  | Fin q => Some (Qfloor q)
  | _ => None
  end.

(** Lines 79-87; [newCode] is the outcome of [uid()]. *)
Definition post_rooms (newCode : string) (body : roomBody) (db : store)
  : roomConfig * store :=
  let cfg := room_config body in
  (cfg,
   {| rooms := rooms db ++
        [ {| code := newCode;
             startRadius := sql_integer (cfg_startRadius cfg);
             shrinkStepSec := sql_integer (cfg_shrinkStepSec cfg);
             shrinkAmount := sql_integer (cfg_shrinkAmount cfg);
             startedAt := None |} ];
      players := players db;
      locations := locations db |}).

(** POST /rooms/:code/start (lines 90-96):
    UPDATE rooms SET startedAt = ? WHERE code = ?, 404 when no row changed. *)
Definition start_room (c : string) (nowTs : Z) (r : roomRow) : roomRow :=
  if (code r =? c)%string
  then {| code := code r; startRadius := startRadius r;
          shrinkStepSec := shrinkStepSec r; shrinkAmount := shrinkAmount r;
          startedAt := Some nowTs |}
  else r.

(** [getRoom]: the row of that code, if any. *)
Definition getRoom (db : store) (c : string) : option roomRow :=
  find (fun r => (code r =? c)%string) (rooms db).

(** ** Zone radius (lines 153-159) *)

(** [v || d] on a nullable integer column: NULL and 0 are falsy. *)
Definition int_or (v : option Z) (d : Z) : Z :=
  match v with
  | Some z => if z =? 0 then d else z
  | None => d
  end.

(** [ToNumber] of a nullable integer column: NULL counts as 0. *)
Definition int_num (v : option Z) : Z :=
  match v with Some z => z | None => 0 end.

Definition zone_radius (r : roomRow) (nowTs : Z) : Z :=
  let zoneRadius := int_or (startRadius r) 800 in
  match startedAt r with
  | Some t =>
      if t =? 0 then zoneRadius
      else
        let elapsedMs := nowTs - t in
        let stepMs := Z.max 1 (int_num (shrinkStepSec r)) * 1000 in
        let steps := elapsedMs / stepMs in
        Z.max 20 (zoneRadius - steps * int_or (shrinkAmount r) 50)
  | None => zoneRadius
  end.

(** Section 4.1 of the specification, in its words: the radius is
    [startRadius] while [startedAt] is null; otherwise, with
    [elapsed = now - startedAt] in milliseconds and
    [steps = floor(elapsed / (shrinkStepSec * 1000))], it is
    [max(20, startRadius - steps * shrinkAmount)]. *)
Definition spec_zone_radius (startRadius shrinkStepSec shrinkAmount : Z)
    (startedAt : option Z) (now : Z) : Z :=
  match startedAt with
  | None => startRadius
  | Some t =>
      let elapsed := now - t in
      let steps := elapsed / (shrinkStepSec * 1000) in
      Z.max 20 (startRadius - steps * shrinkAmount)
  end.

(** ** POST /location (lines 129-142) *)

Record locationBody : Type := mkLocationBody {
  lb_playerId : option string;
  lb_lat : coord;
  lb_lng : coord
}.

(** The global [isFinite]: it converts its argument to a number first, so
    [undefined] becomes [NaN] and [null] becomes 0. *)
Definition isFinite (c : coord) : bool :=
  match c with
  | CUndefined => false
  | CNull => true
  | CNum n => num_finite n
  end.

(** [!s] on an optional string: absent and empty are falsy. *)
Definition str_falsy (s : option string) : bool :=
  match s with
  | Some s => (s =? "")%string
  | None => true
  end.

Inductive reply : Type :=
| Ok
| BadRequest
| NotFound.

(** INSERT ... ON CONFLICT(playerId) DO UPDATE *)
Fixpoint upsert_location (l : locationRow) (ls : list locationRow)
  : list locationRow :=
  match ls with
  | [] => [l]
  | x :: t =>
      if (l_playerId x =? l_playerId l)%string then l :: t
      else x :: upsert_location l t
  end.

Definition touch_player (k : string) (ts : Z) (p : playerRow) : playerRow :=
  if (p_id p =? k)%string
  then {| p_id := p_id p; p_room := p_room p; p_name := p_name p;
          p_role := p_role p; p_status := p_status p;
          p_lastSeen := Some ts |}
  else p.

Definition post_location (ts : Z) (body : locationBody) (db : store)
  : reply * store :=
  if str_falsy (lb_playerId body)
     || negb (isFinite (lb_lat body)) || negb (isFinite (lb_lng body))
  then (BadRequest, db)
  else
    match lb_playerId body with
    | None => (BadRequest, db)
    | Some playerId =>
        match find (fun p => (p_id p =? playerId)%string) (players db) with
        | None => (NotFound, db)
        | Some _ =>
            (Ok,
             {| rooms := rooms db;
                players := map (touch_player playerId ts) (players db);
                locations :=
                  upsert_location
                    {| l_playerId := playerId; l_lat := lb_lat body;
                       l_lng := lb_lng body; l_ts := ts |}
                    (locations db) |})
        end
    end.

(** ** The snapshot of a state request (lines 162-184) *)

Record snapRow : Type := mkSnapRow {
  r_id : string;
  r_name : string;
  r_role : string;
  r_status : option string;
  r_lastSeen : option Z;
  r_lat : coord;
  r_lng : coord;
  r_ts : option Z
}.

(** players LEFT JOIN locations ON p.id = l.playerId WHERE p.room = ? *)
Definition load_rows (db : store) (room : string) : list snapRow :=
  map (fun p =>
         match find (fun l => (l_playerId l =? p_id p)%string) (locations db)
         with
         | Some l =>
             {| r_id := p_id p; r_name := p_name p; r_role := p_role p;
                r_status := p_status p; r_lastSeen := p_lastSeen p;
                r_lat := l_lat l; r_lng := l_lng l; r_ts := Some (l_ts l) |}
         | None =>
             {| r_id := p_id p; r_name := p_name p; r_role := p_role p;
                r_status := p_status p; r_lastSeen := p_lastSeen p;
                r_lat := CNull; r_lng := CNull; r_ts := None |}
         end)
      (filter (fun p => (p_room p =? room)%string) (players db)).

(** One entry of the [players] helper object. *)
Record player : Type := mkPlayer {
  id : string;
  name : string;
  role : string;
  status : string;
  lastSeen : option Z;
  lat : coord;
  lng : coord;
  locTs : option Z
}.

(** [x === null] and [x == null]. *)
Definition is_null (c : coord) : bool :=
  match c with CNull => true | _ => false end.

Definition is_nullish (c : coord) : bool :=
  match c with CNum _ => false | _ => true end.

(** [(x !== null && x !== undefined) ? x : null] *)
Definition coord_or_null (c : coord) : coord :=
  if is_nullish c then CNull else c.

(** [x || null] on a nullable integer. *)
Definition int_or_null (v : option Z) : option Z :=
  match v with
  | Some z => if z =? 0 then None else Some z
  | None => None
  end.

(** [r.status || 'ready'] *)
Definition status_or_ready (s : option string) : string :=
  match s with
  | Some s => if (s =? "")%string then "ready" else s
  | None => "ready"
  end.

Definition player_of_row (r : snapRow) : player :=
  {| id := r_id r; name := r_name r; role := r_role r;
     status := status_or_ready (r_status r);
     lastSeen := int_or_null (r_lastSeen r);
     lat := coord_or_null (r_lat r);
     lng := coord_or_null (r_lng r);
     locTs := int_or_null (r_ts r) |}.

(** [players[k]] *)
Definition lookup (k : string) (ps : list player) : option player :=
  find (fun p => (id p =? k)%string) ps.

(** [players[k] = v]: replaces the entry of key [k] where it stands, or
    adds a new last entry. *)
Fixpoint obj_set (v : player) (ps : list player) : list player :=
  match ps with
  | [] => [v]
  | x :: t => if (id x =? id v)%string then v :: t else x :: obj_set v t
  end.

Definition build_players (rows : list snapRow) : list player :=
  fold_left (fun ps r => obj_set (player_of_row r) ps) rows [].

Definition with_status (s : string) (p : player) : player :=
  {| id := id p; name := name p; role := role p; status := s;
     lastSeen := lastSeen p; lat := lat p; lng := lng p; locTs := locTs p |}.

(** [players[k].status = s]; keys of an object are unique. *)
Definition set_status (k s : string) (ps : list player) : list player :=
  map (fun p => if (id p =? k)%string then with_status s p else p) ps.

(** The entry [p] once the keys in [log] have been caught, and the object
    [ps] with every entry so updated. *)
Definition marked (log : list string) (p : player) : player :=
  if existsb (String.eqb (id p)) log then with_status "caught" p else p.

Definition mark (log : list string) (ps : list player) : list player :=
  map (marked log) ps.

(** ** Response values *)

Inductive jsval : Type :=
| JUndefined
| JNull
| JNum (n : num)
| JStr (s : string).

Definition view : Type := list (string * jsval).

Definition of_coord (c : coord) : jsval :=
  match c with
  | CUndefined => JUndefined
  | CNull => JNull
  | CNum n => JNum n
  end.

Definition of_int (v : option Z) : jsval :=
  match v with
  | Some z => JNum (num_of_Z z)
  | None => JNull
  end.

(** What [res.json] puts on the wire for a value: a number that is not
    finite is written [null]. *)
Definition json_value (v : jsval) : jsval :=
  match v with
  | JNum n => if num_finite n then JNum n else JNull
  | _ => v
  end.

(** What [res.json] puts on the wire for an object: a property whose value
    is [undefined] is left out. *)
Fixpoint json_view (v : view) : view :=
  match v with
  | [] => []
  | (k, JUndefined) :: t => json_view t
  | (k, x) :: t => (k, json_value x) :: json_view t
  end.

(** The value of property [k], if the object has it. *)
Fixpoint field (k : string) (v : view) : option jsval :=
  match v with
  | [] => None
  | (k', x) :: t => if (k' =? k)%string then Some x else field k t
  end.

(** [String.prototype.toUpperCase] on ASCII letters. *)
Definition upper_ascii (c : ascii) : ascii :=
  let n := nat_of_ascii c in
  if ((97 <=? n) && (n <=? 122))%nat then ascii_of_nat (n - 32) else c.

Fixpoint toUpperCase (s : string) : string :=
  match s with
  | String c t => String (upper_ascii c) (toUpperCase t)
  | EmptyString => EmptyString
  end.

Definition post_start (nowTs : Z) (c : string) (db : store) : reply * store :=
  let c' := toUpperCase c in
  if existsb (fun r => (code r =? c')%string) (rooms db)
  then (Ok, {| rooms := map (start_room c' nowTs) (rooms db);
               players := players db;
               locations := locations db |})
  else (NotFound, db).

Definition caught_row (p : playerRow) : playerRow :=
  {| p_id := p_id p; p_room := p_room p; p_name := p_name p;
     p_role := p_role p; p_status := Some "caught";
     p_lastSeen := p_lastSeen p |}.

(** UPDATE players SET status = 'caught' WHERE id = ? *)
Definition db_set_caught (db : store) (k : string) : store :=
  {| rooms := rooms db;
     players :=
       map (fun p => if (p_id p =? k)%string then caught_row p else p)
           (players db);
     locations := locations db |}.

(** Lines 168-169: [parseInt(req.query.catchMeters || '30')]. *)
Definition catchMeters_of (q : option string) : num :=
  parseInt_string (if str_falsy q then "30"
                   else match q with Some s => s | None => "30" end).

Section Engine.

(** Lines 63-73 of [distMeters]: the great-circle distance in meters of two
    points given by four numbers. *)
Variable haversine : num -> num -> num -> num -> num.

(** [distMeters] (lines 61-74). *)
Definition distMeters (aLat aLng bLat bLng : coord) : num :=
  match aLat, aLng, bLat, bLng with
  | CNum a1, CNum a2, CNum b1, CNum b2 => haversine a1 a2 b1 b2
  | _, _, _, _ => PInf
  end.

(** Some of the four coordinates is [null] or [undefined]. *)
Definition any_missing (aLat aLng bLat bLng : coord) : bool :=
  is_nullish aLat || is_nullish aLng || is_nullish bLat || is_nullish bLng.

(** *** Catch detection (lines 186-202)

    The state of the two loops: the [players] object and the UPDATE
    statements run so far, oldest first. *)
Definition catch_state : Type := (list player * list string)%type.

(** The body of the inner loop, for hunter [a] (key [aId]) and key [bId]. *)
Definition catch_pair (catchMeters : num) (aId : string) (a : player)
    (st : catch_state) (bId : string) : catch_state :=
  if (aId =? bId)%string then st
  else
    match lookup bId (fst st) with
    | None => st
    | Some b =>
        if negb (role b =? "runner")%string || is_null (lat b) then st
        else
          let d := distMeters (lat a) (lng a) (lat b) (lng b) in
          if num_le d catchMeters then
            if negb (status b =? "caught")%string
            then (set_status bId "caught" (fst st), (snd st ++ [bId])%list)
            else st
          else st
    end.

(** The body of the outer loop, for key [aId]. *)
Definition catch_hunter (catchMeters : num) (keys : list string)
    (st : catch_state) (aId : string) : catch_state :=
  match lookup aId (fst st) with
  | None => st
  | Some a =>
      if negb (role a =? "hunter")%string || is_null (lat a) then st
      else fold_left (catch_pair catchMeters aId a) keys st
  end.

Definition detect_catches (catchMeters : num) (ps : list player)
  : catch_state :=
  let keys := map id ps in
  fold_left (catch_hunter catchMeters keys) keys (ps, []).

(** Key [k] is a runner that hunter [aId] caught: in the object [ps0] the
    loops started from, the two pass the guards of lines 189-196. *)
Definition caught_by (catchMeters : num) (ps0 : list player)
    (aId k : string) : Prop :=
  exists a b,
    lookup aId ps0 = Some a /\ lookup k ps0 = Some b /\ aId <> k /\
    role a = "hunter" /\ is_null (lat a) = false /\
    role b = "runner" /\ is_null (lat b) = false /\
    status b <> "caught" /\
    num_le (distMeters (lat a) (lng a) (lat b) (lng b)) catchMeters = true.

(** The invariant of both loops: the object is the initial one with the
    written keys caught, no key is written twice, and every written key
    was caught by some hunter. *)
Definition catch_inv (catchMeters : num) (ps0 : list player)
    (st : catch_state) : Prop :=
  fst st = mark (snd st) ps0 /\
  NoDup (snd st) /\
  forall k, In k (snd st) -> exists aId, caught_by catchMeters ps0 aId k.

(** The runner of key [bId], [b0] at the start, is caught for good: it was
    so at the start, or its UPDATE has run. *)
Definition settled (bId : string) (b0 : player) (st : catch_state) : Prop :=
  In bId (snd st) \/ status b0 = "caught".

(** *** Nearest opponent (lines 208-222)

    Computed for every player and stored in a property that no response
    field reads. *)
Definition nearestOpp (ps : list player) (p : player)
  : option string * num :=
  fold_left
    (fun best q =>
       if (id p =? id q)%string then best
       else if is_null (lat q) || is_null (lng q) then best
       else if (role p =? role q)%string then best
       else
         let d := distMeters (lat p) (lng p) (lat q) (lng q) in
         if num_lt d (snd best) then (Some (id q), d) else best)
    ps (None, PInf).

(** *** Visibility projection (lines 224-264) *)

Definition base_fields (p : player) : view :=
  [ ("id", JStr (id p)); ("name", JStr (name p));
    ("role", JStr (role p)); ("status", JStr (status p)) ].

(** [(x.lat != null && y.lat != null)
      ? Math.round(distMeters(v.lat, v.lng, p.lat, p.lng)) : null] *)
Definition rounded_distance (v p : player) (guard : bool) : jsval :=
  if guard
  then JNum (Math_round (distMeters (lat v) (lng v) (lat p) (lng p)))
  else JNull.

Definition project (viewer : option player) (p : player) : view :=
  match viewer with
  | None => base_fields p
  | Some v =>
      if (role v =? "hunter")%string then
        (base_fields p ++
         [ ("lat", of_coord (lat p)); ("lng", of_coord (lng p));
           ("lastSeen", of_int (lastSeen p));
           ("distanceToViewer",
            rounded_distance v p
              (negb (is_nullish (lat p)) && negb (is_nullish (lat v)))) ])%list
      else if (id p =? id v)%string then
        (base_fields p ++
         [ ("lat", of_coord (lat p)); ("lng", of_coord (lng p));
           ("lastSeen", of_int (lastSeen p)) ])%list
      else if (role p =? "hunter")%string then
        (base_fields p ++
         [ ("distanceToRunner",
            rounded_distance v p
              (negb (is_nullish (lat v)) && negb (is_nullish (lat p))));
           ("lastSeen", of_int (lastSeen p)) ])%list
      else
        (base_fields p ++ [ ("lastSeen", of_int (lastSeen p)) ])%list
  end.

(** The property names a plain object inherits from [Object.prototype]:
    under them [players[k]] finds a function (for [__proto__] the
    prototype object) even when no player has the key. *)
Definition inherited_keys : list string :=
  [ "constructor"; "__defineGetter__"; "__defineSetter__"; "hasOwnProperty";
    "__lookupGetter__"; "__lookupSetter__"; "isPrototypeOf";
    "propertyIsEnumerable"; "toString"; "valueOf"; "__proto__";
    "toLocaleString" ].

(** Such an inherited value as the projection reads it: its [id], [role],
    [lat] and [lng] are [undefined].  It is found only when no entry has
    the key [k], so that no entry's id equals the [id] written here, as
    none equals [undefined]; the empty role stands for a role that is not
    'hunter'. *)
Definition inherited_viewer (k : string) : player :=
  {| id := k; name := ""; role := ""; status := ""; lastSeen := None;
     lat := CUndefined; lng := CUndefined; locTs := None |}.

(** [viewerId && players[viewerId] ? players[viewerId] : null], with
    [viewerId = req.query.playerId || null]: the player's entry, or what
    the object inherits under that name. *)
Definition viewer_of (q : option string) (ps : list player) : option player :=
  if str_falsy q then None
  else match q with
       | Some k =>
           match lookup k ps with
           | Some p => Some p
           | None =>
               if existsb (String.eqb k) inherited_keys
               then Some (inherited_viewer k)
               else None
           end
       | None => None
       end.

(** *** GET /state/:room (lines 147-279) *)

Record stateRequest : Type := mkStateRequest {
  q_room : string;
  q_playerId : option string;
  q_catchMeters : option string
}.

Record stateResponse : Type := mkStateResponse {
  res_room : roomRow;
  res_zoneRadius : Z;
  res_players : list view;
  res_now : Z
}.

(** The body of the response as sent: every view in wire form. *)
Definition sent_players (r : stateResponse) : list view :=
  map json_view (res_players r).

(** The handler: [None] is the 404 reply.  [nowTs] and [sendTs] are the
    values of the two [Date.now()] calls. *)
Definition get_state (nowTs sendTs : Z) (req : stateRequest) (db : store)
  : option stateResponse * store :=
  let room := toUpperCase (q_room req) in
  match getRoom db room with
  | None => (None, db)
  | Some roomRow =>
      let zoneRadius := zone_radius roomRow nowTs in
      let playerRows := load_rows db room in
      let catchMeters := catchMeters_of (q_catchMeters req) in
      let '(ps, writes) :=
        detect_catches catchMeters (build_players playerRows) in
      let viewer := viewer_of (q_playerId req) ps in
      (Some {| res_room := roomRow;
               res_zoneRadius := zoneRadius;
               res_players := map (project viewer) ps;
               res_now := sendTs |},
       fold_left db_set_caught writes db)
  end.

End Engine.

(** ** Sample data for the worked examples *)

(** A stand-in for [haversine] on small grids: 111195 meters per degree
    along each axis. *)
Definition grid_distance (aLat aLng bLat bLng : num) : num :=
  match aLat, aLng, bLat, bLng with
  | Fin x1, Fin y1, Fin x2, Fin y2 =>
      Fin (inject_Z 111195 * (Qabs (x2 - x1) + Qabs (y2 - y1)))
  | _, _, _, _ => NaN
  end.

Definition sample_room : roomRow :=
  {| code := "ROOM01"; startRadius := Some 800; shrinkStepSec := Some 20;
     shrinkAmount := Some 50; startedAt := Some 1000 |}.

Definition sample_player (k nm rl : string) : playerRow :=
  {| p_id := k; p_room := "ROOM01"; p_name := nm; p_role := rl;
     p_status := Some "ready"; p_lastSeen := Some 1000 |}.

Definition sample_location (k : string) (la lo : Z) : locationRow :=
  {| l_playerId := k; l_lat := CNum (num_of_Z la); l_lng := CNum (num_of_Z lo);
     l_ts := 1000 |}.

(** A hunter and a runner on the same spot, a second runner one degree
    away, and a second hunter who has sent no location. *)
Definition sample_store : store :=
  {| rooms := [ sample_room ];
     players := [ sample_player "h1" "Ann" "hunter";
                  sample_player "r1" "Bob" "runner";
                  sample_player "r2" "Cid" "runner";
                  sample_player "h2" "Dee" "hunter" ];
     locations := [ sample_location "h1" 10 10;
                    sample_location "r1" 10 10;
                    sample_location "r2" 11 10 ] |}.

Definition sample_request (viewer : option string) : stateRequest :=
  {| q_room := "room01"; q_playerId := viewer; q_catchMeters := Some "30" |}.

(** ** POST /join (lines 106-117) *)

(** The [name] of a join body, by what line 108 does with it. *)
Inductive bodyName : Type :=
| NameAbsent                 (* undefined, null, false or 0 *)
| NameStr (s : string)
| NameArr (a : list string)  (* an array, here of strings *)
| NameOther.                 (* true, another number, an object *)

(** [room] and [role] are strings or absent.  (Any [role] that is not the
    string 'runner' gives 'hunter'; a truthy [room] of another type makes
    line 107 throw, which leaves the store as it is.) *)
Record joinBody : Type := mkJoinBody {
  jb_room : option string;
  jb_name : bodyName;
  jb_role : option string
}.

(** [s || d] on an optional string: absent and empty are falsy. *)
Definition str_or (s : option string) (d : string) : string :=
  match s with
  | Some s => if (s =? "")%string then d else s
  | None => d
  end.

(** Line 108, [(req.body.name || 'Player').slice(0,40)]: a string is cut to
    its first 40 characters, an array to its first 40 elements, and a value
    with no [slice] method makes the call throw ([None]). *)
Inductive slicedName : Type :=
| SlicedStr (s : string)
| SlicedArr (a : list string).

Definition sliced_name (n : bodyName) : option slicedName :=
  match n with
  | NameAbsent => Some (SlicedStr (substring 0 40 "Player"))
  | NameStr s =>
      Some (SlicedStr (substring 0 40 (if (s =? "")%string then "Player"
                                       else s)))
  | NameArr a => Some (SlicedArr (firstn 40 a))
  | NameOther => None
  end.

(** What line 115 binds to the [name] column.  better-sqlite3 spreads an
    array argument of [run] over the placeholders, so an array fills the
    one placeholder left for it only when it has one element; with any
    other count [run] throws ([None]). *)
Definition bound_name (n : slicedName) : option string :=
  match n with
  | SlicedStr s => Some s
  | SlicedArr [s] => Some s
  | SlicedArr _ => None
  end.

(** [(req.body.role === 'runner') ? 'runner' : 'hunter'] *)
Definition join_role (r : option string) : string :=
  match r with
  | Some r => if (r =? "runner")%string then "runner" else "hunter"
  | None => "hunter"
  end.

(** The replies of the join handler.  [Joined] carries the name as it is
    stored; the reply echoes the value of line 108, which is that string
    or the one-element array holding it.  [JoinError] is a call that
    throws (line 108, or the binding of line 115), [JoinConflict] the
    INSERT refused by the PRIMARY KEY on [players.id]; Express answers 500
    to both. *)
Inductive joinReply : Type :=
| Joined (newId nm rl room : string)
| JoinBadRequest
| JoinNotFound
| JoinConflict
| JoinError.

(** [newId] is the outcome of [uuidv4()], [ts] that of [Date.now()].  The
    INSERT names no status, so the column takes its default 'ready'. *)
Definition post_join (newId : string) (ts : Z) (body : joinBody) (db : store)
  : joinReply * store :=
  let room := toUpperCase (str_or (jb_room body) "") in
  match sliced_name (jb_name body) with
  | None => (JoinError, db)
  | Some sliced =>
      let rl := join_role (jb_role body) in
      if (room =? "")%string then (JoinBadRequest, db)
      else
        match getRoom db room with
        | None => (JoinNotFound, db)
        | Some _ =>
            match bound_name sliced with
            | None => (JoinError, db)
            | Some nm =>
                if existsb (fun p => (p_id p =? newId)%string) (players db)
                then (JoinConflict, db)
                else
                  (Joined newId nm rl room,
                   {| rooms := rooms db;
                      players := players db ++
                        [ {| p_id := newId; p_room := room; p_name := nm;
                             p_role := rl; p_status := Some "ready";
                             p_lastSeen := Some ts |} ];
                      locations := locations db |})
            end
        end
  end.

(** ** POST /leave (lines 120-126) *)

(** The schema declares [locations.playerId] a FOREIGN KEY on
    [players.id], and the source sets no [foreign_keys] pragma: whether the
    clause is enforced is the default of the SQLite build behind
    better-sqlite3.  [foreign_keys] is that setting.  When it is on, the
    first DELETE throws on a player that a location row refers to, the
    second DELETE is not reached and no row is removed. *)
Inductive leaveReply : Type :=
| LeaveOk
| LeaveBadRequest
| LeaveError.

Definition post_leave (foreign_keys : bool) (playerId : option string)
    (db : store) : leaveReply * store :=
  if str_falsy playerId then (LeaveBadRequest, db)
  else
    match playerId with
    | None => (LeaveBadRequest, db)
    | Some k =>
        if foreign_keys
           && existsb (fun p => (p_id p =? k)%string) (players db)
           && existsb (fun l => (l_playerId l =? k)%string) (locations db)
        then (LeaveError, db)
        else
          (LeaveOk,
           {| rooms := rooms db;
              players :=
                filter (fun p => negb (p_id p =? k)%string) (players db);
              locations :=
                filter (fun l => negb (l_playerId l =? k)%string)
                       (locations db) |})
    end.

(** ** Sequences of requests *)

(** POST /rooms with the PRIMARY KEY of [rooms]: the INSERT throws when
    [uid()] gives a code that a room already has, and no row is written. *)
Definition insert_room (newCode : string) (body : roomBody) (db : store)
  : option roomConfig * store :=
  if existsb (fun r => (code r =? newCode)%string) (rooms db)
  then (None, db)
  else (Some (fst (post_rooms newCode body db)),
        snd (post_rooms newCode body db)).

(** One request to the service, with what the handler draws from outside:
    the code of [uid()], the id of [uuidv4()], the readings of
    [Date.now()]. *)
Inductive request : Type :=
| CreateRoom (newCode : string) (body : roomBody)
| StartRoom (nowTs : Z) (c : string)
| Join (newId : string) (ts : Z) (body : joinBody)
| Leave (playerId : option string)
| Location (ts : Z) (body : locationBody)
| State (nowTs sendTs : Z) (req : stateRequest).

(** The store a request leaves behind. *)
Definition handle (haversine : num -> num -> num -> num -> num)
    (foreign_keys : bool) (r : request) (db : store) : store :=
  match r with
  | CreateRoom newCode body => snd (insert_room newCode body db)
  | StartRoom nowTs c => snd (post_start nowTs c db)
  | Join newId ts body => snd (post_join newId ts body db)
  | Leave playerId => snd (post_leave foreign_keys playerId db)
  | Location ts body => snd (post_location ts body db)
  | State nowTs sendTs req => snd (get_state haversine nowTs sendTs req db)
  end.

Definition run (haversine : num -> num -> num -> num -> num)
    (foreign_keys : bool) (rs : list request) (db : store) : store :=
  fold_left (fun d r => handle haversine foreign_keys r d) rs db.

(** The tables after [CREATE TABLE IF NOT EXISTS] on a new file. *)
Definition empty_store : store :=
  {| rooms := []; players := []; locations := [] |}.

(** A configuration column is NULL or inside [lo, hi]. *)
Definition null_or_within (lo hi : Z) (v : option Z) : Prop :=
  match v with
  | Some z => lo <= z <= hi
  | None => True
  end.

(** What holds of every store the handlers can produce: the references
    and keys of the schema, and the ranges of the columns. *)
Record store_ok (db : store) : Prop := mkStoreOk {
  ok_location_player :
    forall l, In l (locations db) ->
              exists p, In p (players db) /\ p_id p = l_playerId l;
  ok_player_room :
    forall p, In p (players db) ->
              exists r, In r (rooms db) /\ code r = p_room p;
  ok_player_ids : NoDup (map p_id (players db));
  ok_location_ids : NoDup (map l_playerId (locations db));
  ok_player_columns :
    forall p, In p (players db) ->
              (p_role p = "hunter" \/ p_role p = "runner") /\
              (p_status p = Some "ready" \/ p_status p = Some "caught");
  ok_room_columns :
    forall r, In r (rooms db) ->
              null_or_within 20 100000 (startRadius r) /\
              null_or_within 1 86400 (shrinkStepSec r) /\
              null_or_within 1 100000 (shrinkAmount r);
  ok_room_codes : NoDup (map code (rooms db))
}.

(** Every stored name has at most 40 characters. *)
Definition names_short (db : store) : Prop :=
  forall p, In p (players db) -> (String.length (p_name p) <= 40)%nat.

(** No join of the sequence carries an array as name. *)
Definition string_names (rs : list request) : Prop :=
  forall newId ts body a,
    In (Join newId ts body) rs -> jb_name body <> NameArr a.

(** * Properties *)

(** ** Numbers *)

Lemma num_lt_not_le (a b : num) : num_lt a b = true -> num_le b a = false.
Proof.
  destruct a, b; simpl; try congruence.
  intros H. now apply negb_true_iff in H.
Qed.


(** ** Folding an invariant through a loop *)

Lemma fold_left_invariant {A B : Type} (P : A -> Prop) (f : A -> B -> A)
    (l : list B) :
  (forall s x, In x l -> P s -> P (f s x)) ->
  forall s, P s -> P (fold_left f l s).
Proof.
  induction l as [|x l IH]; simpl; intros Hstep s Hs; [exact Hs|].
  apply IH; [intros; apply Hstep; auto | apply Hstep; auto].
Qed.

(** ** The [players] object *)

Lemma lookup_id (k : string) (ps : list player) (p : player) :
  lookup k ps = Some p -> id p = k /\ In p ps.
Proof.
  unfold lookup. intros H. apply find_some in H as [Hin Heq].
  apply String.eqb_eq in Heq. auto.
Qed.

Lemma lookup_key_in (k : string) (ps : list player) (p : player) :
  lookup k ps = Some p -> In k (map id ps).
Proof.
  intros H. apply lookup_id in H as [<- Hin]. now apply in_map.
Qed.

Lemma mark_nil (ps : list player) : mark [] ps = ps.
Proof. unfold mark, marked. simpl. apply map_id. Qed.

Lemma existsb_eqb_In (k : string) (l : list string) :
  existsb (String.eqb k) l = true <-> In k l.
Proof.
  rewrite existsb_exists. split.
  - intros [x [Hin Heq]]. apply String.eqb_eq in Heq. now subst.
  - intros Hin. exists k. split; [exact Hin | apply String.eqb_refl].
Qed.

Lemma set_status_mark (k : string) (log : list string) (ps : list player) :
  set_status k "caught" (mark log ps) = mark (log ++ [k]) ps.
Proof.
  unfold set_status, mark, marked. rewrite map_map. apply map_ext. intros p.
  rewrite existsb_app. simpl. rewrite orb_false_r.
  destruct (existsb (String.eqb (id p)) log) eqn:E; simpl.
  - destruct (id p =? k)%string; reflexivity.
  - reflexivity.
Qed.

Lemma lookup_mark (k : string) (log : list string) (ps : list player) :
  lookup k (mark log ps) = option_map (marked log) (lookup k ps).
Proof.
  unfold lookup, mark, marked. induction ps as [|p ps IH]; simpl; [easy|].
  assert (Hid : id (if existsb (String.eqb (id p)) log
                    then with_status "caught" p else p) = id p)
    by (destruct (existsb _ log); reflexivity).
  rewrite Hid. destruct (id p =? k)%string; simpl; [reflexivity|exact IH].
Qed.

Lemma map_id_mark (log : list string) (ps : list player) :
  map id (mark log ps) = map id ps.
Proof.
  unfold mark, marked. rewrite map_map. apply map_ext. intros p.
  destruct (existsb _ log); reflexivity.
Qed.

Lemma marked_fields (log : list string) (p : player) :
  id (marked log p) = id p /\ role (marked log p) = role p /\
  lat (marked log p) = lat p /\ lng (marked log p) = lng p /\
  name (marked log p) = name p /\ lastSeen (marked log p) = lastSeen p.
Proof. unfold marked. destruct (existsb _ log); simpl; auto 10. Qed.

Lemma marked_status (log : list string) (p : player) :
  status (marked log p) =
  if existsb (String.eqb (id p)) log then "caught" else status p.
Proof. unfold marked. destruct (existsb _ log); reflexivity. Qed.

(** ** Catch detection *)

Section Detection.

Variable haversine : num -> num -> num -> num -> num.
Variable catchMeters : num.
Variable ps0 : list player.

Lemma catch_inv_init : catch_inv haversine catchMeters ps0 (ps0, []).
Proof.
  repeat split; simpl.
  - symmetry. apply mark_nil.
  - constructor.
  - intros k [].
Qed.

Lemma catch_pair_inv (aId : string) (a0 a : player) (st : catch_state)
    (bId : string) :
  lookup aId ps0 = Some a0 ->
  role a0 = "hunter" -> is_null (lat a0) = false ->
  lat a = lat a0 -> lng a = lng a0 ->
  catch_inv haversine catchMeters ps0 st ->
  catch_inv haversine catchMeters ps0
    (catch_pair haversine catchMeters aId a st bId).
Proof.
  intros Ha Hrole Hlat Hala Haln Hinv. unfold catch_pair.
  destruct (aId =? bId)%string eqn:Eab; [exact Hinv|].
  destruct (lookup bId (fst st)) as [b|] eqn:Eb; [|exact Hinv].
  destruct (negb (role b =? "runner")%string || is_null (lat b)) eqn:Eguard;
    [exact Hinv|].
  destruct (num_le _ catchMeters) eqn:Ed; [|exact Hinv].
  destruct (negb (status b =? "caught")%string) eqn:Est; [|exact Hinv].
  destruct Hinv as (Hfst & Hnd & Hj).
  rewrite Hfst, lookup_mark in Eb.
  destruct (lookup bId ps0) as [b0|] eqn:Eb0; [|discriminate].
  simpl in Eb. injection Eb as <-.
  destruct (lookup_id _ _ _ Eb0) as [Hidb _].
  apply negb_true_iff in Est. apply String.eqb_neq in Est.
  rewrite marked_status, Hidb in Est.
  destruct (existsb (String.eqb bId) (snd st)) eqn:Ein; [congruence|].
  assert (Hnotin : ~ In bId (snd st)).
  { intros Hin. apply existsb_eqb_In in Hin. congruence. }
  apply orb_false_iff in Eguard as [Er El].
  apply negb_false_iff, String.eqb_eq in Er.
  destruct (marked_fields (snd st) b0) as (_ & Hr & Hla & Hln & _).
  rewrite Hr in Er. rewrite Hla in El. rewrite Hala, Haln, Hla, Hln in Ed.
  repeat split; simpl.
  - rewrite Hfst. apply set_status_mark.
  - apply NoDup_app; [exact Hnd | repeat constructor; intros [] | ].
    intros x Hx [<-|[]]. contradiction.
  - intros k Hk. apply in_app_or in Hk as [Hk|[<-|[]]]; [now apply Hj|].
    exists aId, a0, b0. apply String.eqb_neq in Eab. auto 10.
Qed.

Lemma catch_pair_grows (aId : string) (a : player) (st : catch_state)
    (bId k : string) :
  In k (snd st) -> In k (snd (catch_pair haversine catchMeters aId a st bId)).
Proof.
  intros Hk. unfold catch_pair.
  repeat match goal with
         | |- context [if ?c then _ else _] => destruct c
         | |- context [match ?c with Some _ => _ | None => _ end] =>
             destruct c
         end; simpl; auto.
  apply in_or_app. now left.
Qed.

(** A loop whose steps keep [P] and, once past the element [x], keep [Q],
    ends in [Q] when the step at [x] establishes it. *)
Lemma fold_left_reaches {A B : Type} (P Q : A -> Prop) (f : A -> B -> A)
    (l : list B) (x : B) :
  In x l ->
  (forall s y, P s -> P (f s y)) ->
  (forall s, P s -> Q (f s x)) ->
  (forall s y, Q s -> Q (f s y)) ->
  forall s, P s -> Q (fold_left f l s).
Proof.
  intros Hin HP Hx HQ s Hs.
  apply in_split in Hin as (l1 & l2 & ->).
  rewrite fold_left_app. simpl.
  apply fold_left_invariant; [intros; now apply HQ|].
  apply Hx. apply fold_left_invariant; [intros; now apply HP|exact Hs].
Qed.

Lemma catch_hunter_inv (keys : list string) (st : catch_state)
    (aId : string) :
  catch_inv haversine catchMeters ps0 st ->
  catch_inv haversine catchMeters ps0
    (catch_hunter haversine catchMeters keys st aId).
Proof.
  intros Hinv. unfold catch_hunter.
  destruct (lookup aId (fst st)) as [a|] eqn:Ea; [|exact Hinv].
  destruct (negb (role a =? "hunter")%string || is_null (lat a)) eqn:Eg;
    [exact Hinv|].
  pose proof Hinv as (Hfst & _ & _).
  rewrite Hfst, lookup_mark in Ea.
  destruct (lookup aId ps0) as [a0|] eqn:Ea0; [|discriminate].
  simpl in Ea. injection Ea as <-.
  destruct (marked_fields (snd st) a0) as (_ & Hr & Hla & Hln & _).
  apply orb_false_iff in Eg as [Er El].
  apply negb_false_iff, String.eqb_eq in Er.
  rewrite Hr in Er. rewrite Hla in El.
  apply fold_left_invariant; [|exact Hinv].
  intros s x _ Hs. now apply catch_pair_inv with (a0 := a0).
Qed.

Lemma catch_hunter_grows (keys : list string) (st : catch_state)
    (aId k : string) :
  In k (snd st) ->
  In k (snd (catch_hunter haversine catchMeters keys st aId)).
Proof.
  intros Hk. unfold catch_hunter.
  destruct (lookup aId (fst st)) as [a|]; [|exact Hk].
  destruct (negb (role a =? "hunter")%string || is_null (lat a)); [exact Hk|].
  apply (fold_left_invariant (fun s => In k (snd s))); [|exact Hk].
  intros s x _. apply catch_pair_grows.
Qed.

Lemma catch_pair_settles (aId bId : string) (a b0 : player)
    (st : catch_state) :
  catch_inv haversine catchMeters ps0 st ->
  lookup bId ps0 = Some b0 -> aId <> bId ->
  role b0 = "runner" -> is_null (lat b0) = false ->
  num_le (distMeters haversine (lat a) (lng a) (lat b0) (lng b0)) catchMeters
  = true ->
  settled bId b0 (catch_pair haversine catchMeters aId a st bId).
Proof.
  intros (Hfst & _ & _) Hb Hne Hr Hl Hd. unfold catch_pair, settled.
  apply String.eqb_neq in Hne. rewrite Hne.
  rewrite Hfst, lookup_mark, Hb. simpl.
  destruct (marked_fields (snd st) b0) as (_ & Hr' & Hla & Hln & _).
  rewrite Hr', Hla, Hln, Hr, Hl, Hd. simpl.
  destruct (status (marked (snd st) b0) =? "caught")%string eqn:Es; simpl.
  - apply String.eqb_eq in Es. rewrite marked_status in Es.
    destruct (lookup_id _ _ _ Hb) as [Hid _]. rewrite Hid in Es.
    destruct (existsb (String.eqb bId) (snd st)) eqn:Ein; [|now right].
    left. now apply existsb_eqb_In.
  - left. apply in_or_app. right. now left.
Qed.

Lemma catch_hunter_settles (keys : list string) (aId bId : string)
    (a0 b0 : player) (st : catch_state) :
  catch_inv haversine catchMeters ps0 st ->
  In bId keys ->
  lookup aId ps0 = Some a0 -> lookup bId ps0 = Some b0 -> aId <> bId ->
  role a0 = "hunter" -> is_null (lat a0) = false ->
  role b0 = "runner" -> is_null (lat b0) = false ->
  num_le (distMeters haversine (lat a0) (lng a0) (lat b0) (lng b0))
    catchMeters = true ->
  settled bId b0 (catch_hunter haversine catchMeters keys st aId).
Proof.
  intros Hinv Hin Ha Hb Hne Hra Hla Hrb Hlb Hd. unfold catch_hunter.
  pose proof Hinv as (Hfst & _ & _).
  rewrite Hfst, lookup_mark, Ha. simpl.
  destruct (marked_fields (snd st) a0) as (_ & Hr & Hlat & Hlng & _).
  rewrite Hr, Hlat, Hra, Hla. simpl.
  apply (fold_left_reaches (catch_inv haversine catchMeters ps0)
           (settled bId b0)) with (x := bId);
    [exact Hin | | | | exact Hinv].
  - intros s y Hs. now apply catch_pair_inv with (a0 := a0).
  - intros s Hs. apply catch_pair_settles; auto. now rewrite Hlat, Hlng.
  - intros s y [Hs|Hs]; [left; now apply catch_pair_grows | now right].
Qed.

(** What the two loops leave behind. *)
Lemma detect_catches_inv :
  catch_inv haversine catchMeters ps0
    (detect_catches haversine catchMeters ps0).
Proof.
  unfold detect_catches.
  apply fold_left_invariant; [|apply catch_inv_init].
  intros s x _. apply catch_hunter_inv.
Qed.

Lemma detect_catches_settles (aId bId : string) (a0 b0 : player) :
  lookup aId ps0 = Some a0 -> lookup bId ps0 = Some b0 -> aId <> bId ->
  role a0 = "hunter" -> is_null (lat a0) = false ->
  role b0 = "runner" -> is_null (lat b0) = false ->
  num_le (distMeters haversine (lat a0) (lng a0) (lat b0) (lng b0))
    catchMeters = true ->
  settled bId b0 (detect_catches haversine catchMeters ps0).
Proof.
  intros Ha Hb Hne Hra Hla Hrb Hlb Hd. unfold detect_catches.
  apply (fold_left_reaches (catch_inv haversine catchMeters ps0)
           (settled bId b0)) with (x := aId).
  - eapply lookup_key_in; eauto.
  - intros s y. apply catch_hunter_inv.
  - intros s Hs. eapply catch_hunter_settles; eauto.
    eapply lookup_key_in; eauto.
  - intros s y [Hs|Hs]; [left; now apply catch_hunter_grows | now right].
  - apply catch_inv_init.
Qed.

End Detection.

(** ** The snapshot and the store *)

Lemma obj_set_keys (v : player) (ps : list player) (k : string) :
  In k (map id (obj_set v ps)) <-> k = id v \/ In k (map id ps).
Proof.
  induction ps as [|x t IH]; simpl.
  - intuition.
  - destruct (id x =? id v)%string eqn:E; simpl.
    + apply String.eqb_eq in E. rewrite E. intuition.
    + rewrite IH. intuition.
Qed.

Lemma obj_set_NoDup (v : player) (ps : list player) :
  NoDup (map id ps) -> NoDup (map id (obj_set v ps)).
Proof.
  induction ps as [|x t IH]; simpl; intros Hnd.
  - repeat constructor. intros [].
  - inversion Hnd as [|? ? Hx Ht]; subst.
    destruct (id x =? id v)%string eqn:E; simpl.
    + apply String.eqb_eq in E. rewrite <- E. now constructor.
    + constructor; [|now apply IH].
      rewrite obj_set_keys. intros [H|H]; [|contradiction].
      apply String.eqb_neq in E. congruence.
Qed.

Lemma obj_set_In (v p : player) (ps : list player) :
  In p (obj_set v ps) -> p = v \/ In p ps.
Proof.
  induction ps as [|x t IH]; simpl.
  - intuition.
  - destruct (id x =? id v)%string; simpl; intuition.
Qed.

Lemma build_players_NoDup (rows : list snapRow) :
  NoDup (map id (build_players rows)).
Proof.
  unfold build_players.
  apply (fold_left_invariant (fun ps => NoDup (map id ps))).
  - intros s x _. apply obj_set_NoDup.
  - constructor.
Qed.

Lemma build_players_In (rows : list snapRow) (p : player) :
  In p (build_players rows) -> exists r, In r rows /\ p = player_of_row r.
Proof.
  unfold build_players. revert p.
  apply (fold_left_invariant
           (fun ps => forall p, In p ps ->
                                exists r, In r rows /\ p = player_of_row r)).
  - intros s x Hx Hs p Hp. apply obj_set_In in Hp as [->|Hp]; eauto.
  - intros p [].
Qed.

Lemma load_rows_In (db : store) (room : string) (r : snapRow) :
  In r (load_rows db room) ->
  exists p, In p (players db) /\ p_id p = r_id r /\ p_status p = r_status r.
Proof.
  unfold load_rows. intros H. apply in_map_iff in H as (p & <- & Hp).
  apply filter_In in Hp as [Hp _]. exists p. split; [exact Hp|].
  destruct (find _ (locations db)); simpl; auto.
Qed.

Lemma lookup_unique (ps : list player) (p : player) :
  NoDup (map id ps) -> In p ps -> lookup (id p) ps = Some p.
Proof.
  unfold lookup. induction ps as [|x t IH]; simpl; intros Hnd Hin; [easy|].
  inversion Hnd as [|? ? Hx Ht]; subst.
  destruct Hin as [->|Hin]; [now rewrite String.eqb_refl|].
  destruct (id x =? id p)%string eqn:E; [|now apply IH].
  apply String.eqb_eq in E. exfalso. apply Hx. rewrite E. now apply in_map.
Qed.

Lemma db_set_caught_players (log : list string) (db : store) :
  players (fold_left db_set_caught log db) =
  map (fun p => if existsb (String.eqb (p_id p)) log
                then caught_row p else p) (players db).
Proof.
  revert db. induction log as [|k log IH]; intros db; simpl.
  - symmetry. apply map_id.
  - rewrite IH. unfold db_set_caught. simpl. rewrite map_map.
    apply map_ext. intros p.
    destruct (p_id p =? k)%string eqn:E; simpl.
    + now destruct (existsb _ log).
    + reflexivity.
Qed.

(** ** The projection *)

Lemma project_id (haversine : num -> num -> num -> num -> num)
    (viewer : option player) (p : player) :
  field "id" (json_view (project haversine viewer p)) = Some (JStr (id p)).
Proof.
  unfold project. destruct viewer as [v|]; [|reflexivity].
  destruct (role v =? "hunter")%string; [reflexivity|].
  destruct (id p =? id v)%string; [reflexivity|].
  destruct (role p =? "hunter")%string; reflexivity.
Qed.

Lemma project_status (haversine : num -> num -> num -> num -> num)
    (viewer : option player) (p : player) :
  field "status" (json_view (project haversine viewer p))
  = Some (JStr (status p)).
Proof.
  unfold project. destruct viewer as [v|]; [|reflexivity].
  destruct (role v =? "hunter")%string; [reflexivity|].
  destruct (id p =? id v)%string; [reflexivity|].
  destruct (role p =? "hunter")%string; reflexivity.
Qed.

(** ** The state request, unfolded *)

Lemma get_state_ok (haversine : num -> num -> num -> num -> num)
    (nowTs sendTs : Z) (req : stateRequest) (db db' : store)
    (resp : stateResponse) :
  get_state haversine nowTs sendTs req db = (Some resp, db') ->
  let room := toUpperCase (q_room req) in
  let st := detect_catches haversine (catchMeters_of (q_catchMeters req))
              (build_players (load_rows db room)) in
  exists roomRow,
    getRoom db room = Some roomRow /\
    res_room resp = roomRow /\
    res_zoneRadius resp = zone_radius roomRow nowTs /\
    res_players resp =
      map (project haversine (viewer_of (q_playerId req) (fst st))) (fst st) /\
    db' = fold_left db_set_caught (snd st) db.
Proof.
  intros H. cbv zeta. unfold get_state in H.
  destruct (getRoom db (toUpperCase (q_room req))) as [r|] eqn:Er;
    [|discriminate].
  exists r.
  destruct (detect_catches _ _ _) as [ps writes].
  injection H as <- <-. simpl. auto.
Qed.

(** ** Catch detection in a state request *)

Lemma marked_in_log (log : list string) (p : player) :
  In (id p) log -> status (marked log p) = "caught".
Proof.
  intros H. rewrite marked_status.
  apply existsb_eqb_In in H. now rewrite H.
Qed.

Lemma marked_not_in_log (log : list string) (p : player) :
  ~ In (id p) log -> marked log p = p.
Proof.
  intros H. unfold marked.
  destruct (existsb (String.eqb (id p)) log) eqn:E; [|reflexivity].
  apply existsb_eqb_In in E. contradiction.
Qed.

(** C1.  In a state request that finds its room, take a runner [b] of the
    snapshot with known coordinates.  (1) If a hunter [a] of the snapshot
    with known coordinates is at a haversine distance <= catchMeters and
    [b] is not yet 'caught', the view of [b] in the response has status
    'caught' and the player row of [b] in the store has status 'caught'.
    (2) If a hunter [a] with known coordinates is strictly farther than
    catchMeters from [b], the step of the inner loop for that pair leaves
    every state of the loops as it is, whatever the statuses at that
    moment: no status change, no UPDATE.  (3) A transition of [b] has a
    cause: if no hunter that the guard of line 189 lets through is within
    catchMeters of [b], the view of [b] keeps the status [b] had and the
    player row of [b] is left as it was.  (The guard tests [lat] alone: a
    hunter with a [lat] and no [lng] is at the distance Infinity, which is
    within a threshold that is itself Infinity.) *)
Theorem catch_detection_C1 (haversine : num -> num -> num -> num -> num)
    (nowTs sendTs : Z) (req : stateRequest) (db db' : store)
    (resp : stateResponse) (bId : string) (b : player) (bLat bLng : num) :
  get_state haversine nowTs sendTs req db = (Some resp, db') ->
  let ps := build_players (load_rows db (toUpperCase (q_room req))) in
  let c := catchMeters_of (q_catchMeters req) in
  lookup bId ps = Some b ->
  role b = "runner" -> lat b = CNum bLat -> lng b = CNum bLng ->
  (forall (aId : string) (a : player) (aLat aLng : num),
      lookup aId ps = Some a ->
      role a = "hunter" -> lat a = CNum aLat -> lng a = CNum aLng ->
      num_le (haversine aLat aLng bLat bLng) c = true ->
      status b <> "caught" ->
      (exists v, In v (sent_players resp) /\
                 field "id" v = Some (JStr bId)) /\
      (forall v, In v (sent_players resp) ->
                 field "id" v = Some (JStr bId) ->
                 field "status" v = Some (JStr "caught")) /\
      (exists row, In row (players db') /\ p_id row = bId) /\
      (forall row, In row (players db') -> p_id row = bId ->
                   p_status row = Some "caught"))
  /\
  (forall (aId : string) (a : player) (aLat aLng : num),
      lookup aId ps = Some a ->
      role a = "hunter" -> lat a = CNum aLat -> lng a = CNum aLng ->
      num_lt c (haversine aLat aLng bLat bLng) = true ->
      forall (st : catch_state) (a' b' : player),
        lat a' = lat a -> lng a' = lng a ->
        lookup bId (fst st) = Some b' ->
        lat b' = lat b -> lng b' = lng b ->
        catch_pair haversine c aId a' st bId = st)
  /\
  ((forall (aId : string) (a : player),
       lookup aId ps = Some a ->
       role a = "hunter" -> is_null (lat a) = false ->
       num_le (distMeters haversine (lat a) (lng a) (lat b) (lng b)) c
       = false) ->
   (forall v, In v (sent_players resp) ->
              field "id" v = Some (JStr bId) ->
              field "status" v = Some (JStr (status b))) /\
   (forall row, In row (players db') -> p_id row = bId ->
                In row (players db))).
Proof.
  intros Hget ps c Hb Hrb Hlatb Hlngb.
  apply get_state_ok in Hget. cbv zeta in Hget.
  fold ps c in Hget.
  destruct Hget as (roomRow & _ & _ & _ & Hviews & ->).
  pose proof (detect_catches_inv haversine c ps) as (Hfst & Hnd & Hj).
  set (st := detect_catches haversine c ps) in *.
  destruct (lookup_id _ _ _ Hb) as [Hidb Hinb].
  split; [|split].
  - intros aId a aLat aLng Ha Hra Hlata Hlnga Hd Hst.
    assert (Hne : aId <> bId).
    { intros ->. rewrite Hb in Ha. injection Ha as <-.
      rewrite Hrb in Hra. discriminate. }
    assert (Hlog : In bId (snd st)).
    { destruct (detect_catches_settles haversine c ps aId bId a b)
        as [H|H]; auto.
      - now rewrite Hlata.
      - now rewrite Hlatb.
      - unfold distMeters. now rewrite Hlata, Hlnga, Hlatb, Hlngb.
      - contradiction. }
    split; [|split; [|split]].
    + exists (json_view (project haversine (viewer_of (q_playerId req) (fst st))
                           (marked (snd st) b))).
      split.
      * unfold sent_players. apply in_map. rewrite Hviews. apply in_map.
        rewrite Hfst. unfold mark. now apply in_map.
      * rewrite project_id.
        destruct (marked_fields (snd st) b) as (-> & _). now rewrite Hidb.
    + intros v Hv Hid. unfold sent_players in Hv. rewrite Hviews in Hv.
      apply in_map_iff in Hv as (w & <- & Hw).
      apply in_map_iff in Hw as (p' & <- & Hp').
      rewrite Hfst in Hp'. unfold mark in Hp'.
      apply in_map_iff in Hp' as (p & <- & Hp).
      rewrite project_id in Hid. rewrite project_status.
      destruct (marked_fields (snd st) p) as (Hidp & _).
      rewrite Hidp in Hid. injection Hid as Hid.
      rewrite marked_in_log; [reflexivity|now rewrite Hid].
    + apply build_players_In in Hinb as (r & Hr & ->).
      apply load_rows_In in Hr as (p & Hp & Hpid & _).
      rewrite db_set_caught_players.
      exists (if existsb (String.eqb (p_id p)) (snd st)
              then caught_row p else p).
      split; [now apply in_map with
                (f := fun p => if existsb (String.eqb (p_id p)) (snd st)
                               then caught_row p else p)|].
      simpl in Hidb. rewrite <- Hidb, <- Hpid.
      now destruct (existsb _ (snd st)).
    + intros row Hrow Hid. rewrite db_set_caught_players in Hrow.
      apply in_map_iff in Hrow as (p & <- & _).
      destruct (existsb (String.eqb (p_id p)) (snd st)) eqn:E;
        [reflexivity|].
      rewrite Hid in E. apply existsb_eqb_In in Hlog. congruence.
  - intros aId a aLat aLng Ha Hra Hlata Hlnga Hd st' a' b' Hla' Hln' Hb'
           Hlb' Hlnb'.
    unfold catch_pair. destruct (aId =? bId)%string; [reflexivity|].
    rewrite Hb'.
    destruct (negb (role b' =? "runner")%string || is_null (lat b'));
      [reflexivity|].
    unfold distMeters.
    rewrite Hla', Hln', Hlb', Hlnb', Hlata, Hlnga, Hlatb, Hlngb.
    now rewrite (num_lt_not_le _ _ Hd).
  - intros Hfar.
    assert (Hlog : ~ In bId (snd st)).
    { intros Hin. destruct (Hj _ Hin) as [aId Hc].
      destruct Hc as (a & b' & Ha & Hb' & _ & Hra & Hla & _ & _ & _ & Hd).
      rewrite Hb in Hb'. injection Hb' as <-.
      rewrite (Hfar aId a Ha Hra Hla) in Hd. discriminate. }
    split.
    + intros v Hv Hid. unfold sent_players in Hv. rewrite Hviews in Hv.
      apply in_map_iff in Hv as (w & <- & Hw).
      apply in_map_iff in Hw as (p' & <- & Hp').
      rewrite Hfst in Hp'. unfold mark in Hp'.
      apply in_map_iff in Hp' as (p & <- & Hp).
      rewrite project_id in Hid. rewrite project_status.
      destruct (marked_fields (snd st) p) as (Hidp & _).
      rewrite Hidp in Hid. injection Hid as Hid.
      pose proof (lookup_unique ps p (build_players_NoDup _) Hp) as Hl.
      rewrite Hid, Hb in Hl. injection Hl as <-.
      rewrite marked_not_in_log; [reflexivity|now rewrite Hidb].
    + intros row Hrow Hid. rewrite db_set_caught_players in Hrow.
      apply in_map_iff in Hrow as (p & <- & Hp).
      destruct (existsb (String.eqb (p_id p)) (snd st)) eqn:E; [|exact Hp].
      apply existsb_eqb_In in E. simpl in Hid. rewrite Hid in E.
      contradiction.
Qed.

Lemma lookup_set_status (k b : string) (ps : list player) :
  lookup k (set_status b "caught" ps) =
  option_map (fun p => if (id p =? b)%string
                       then with_status "caught" p else p) (lookup k ps).
Proof.
  unfold lookup, set_status. induction ps as [|p ps IH]; simpl; [easy|].
  assert (Hid : id (if (id p =? b)%string
                    then with_status "caught" p else p) = id p)
    by (destruct (id p =? b)%string; reflexivity).
  rewrite Hid. destruct (id p =? k)%string; simpl; [reflexivity|exact IH].
Qed.

Lemma catch_pair_keeps_caught (haversine : num -> num -> num -> num -> num)
    (c : num) (aId : string) (a : player) (st : catch_state)
    (bId k : string) (p : player) :
  lookup k (fst st) = Some p -> status p = "caught" ->
  exists p', lookup k (fst (catch_pair haversine c aId a st bId)) = Some p'
             /\ status p' = "caught".
Proof.
  intros Hp Hs. unfold catch_pair.
  repeat match goal with
         | |- context [if ?c then _ else _] => destruct c
         | |- context [match ?c with Some _ => _ | None => _ end] =>
             destruct c
         end; simpl; eauto.
  rewrite lookup_set_status, Hp. simpl.
  destruct (id p =? bId)%string; eauto.
Qed.

(** C4.  Catch status only moves towards 'caught'.  (1) After the
    detection pass every entry of the [players] object still has the status
    it had or has status 'caught', and an entry that was 'caught' is
    'caught'.  (2) No step of the inner loop, run on any intermediate state,
    takes an entry away from 'caught'.  (3) The UPDATE statements of one
    pass name each runner at most once. *)
Theorem catch_monotonic_C4 (haversine : num -> num -> num -> num -> num)
    (c : num) (ps : list player) :
  (forall k p, lookup k ps = Some p ->
     exists p',
       lookup k (fst (detect_catches haversine c ps)) = Some p' /\
       (status p' = status p \/ status p' = "caught") /\
       (status p = "caught" -> status p' = "caught") /\
       (status p' <> "ready" \/ status p = "ready")) /\
  (forall aId a st bId k p,
     lookup k (fst st) = Some p -> status p = "caught" ->
     exists p',
       lookup k (fst (catch_pair haversine c aId a st bId)) = Some p' /\
       status p' = "caught") /\
  NoDup (snd (detect_catches haversine c ps)).
Proof.
  pose proof (detect_catches_inv haversine c ps) as (Hfst & Hnd & _).
  split; [|split].
  - intros k p Hp. rewrite Hfst, lookup_mark, Hp. simpl.
    exists (marked (snd (detect_catches haversine c ps)) p).
    split; [reflexivity|]. rewrite marked_status.
    destruct (existsb _ _); repeat split; auto.
    + left. discriminate.
    + destruct (String.string_dec (status p) "ready") as [E|E]; auto.
  - intros. eapply catch_pair_keeps_caught; eauto.
  - exact Hnd.
Qed.


(** ** Missing coordinates *)

Lemma distMeters_missing (haversine : num -> num -> num -> num -> num)
    (aLat aLng bLat bLng : coord) :
  any_missing aLat aLng bLat bLng = true ->
  distMeters haversine aLat aLng bLat bLng = PInf.
Proof.
  unfold any_missing, distMeters.
  destruct aLat, aLng, bLat, bLng; simpl; congruence.
Qed.

Lemma distMeters_known (haversine : num -> num -> num -> num -> num)
    (aLat aLng bLat bLng : coord) :
  any_missing aLat aLng bLat bLng = false ->
  exists a1 a2 b1 b2,
    aLat = CNum a1 /\ aLng = CNum a2 /\ bLat = CNum b1 /\ bLng = CNum b2.
Proof.
  unfold any_missing.
  destruct aLat, aLng, bLat, bLng; simpl; try congruence.
  intros _. eauto 10.
Qed.

(** C7.  (1) [distMeters] returns Infinity as soon as one of its four
    arguments is null or undefined.  (2) For a finite threshold, the inner
    loop step of a hunter and a runner with such a coordinate leaves the
    state as it is: no status change, no UPDATE.  (3) For a finite
    threshold, every UPDATE of a detection pass names a runner for which
    some hunter of the snapshot has all four coordinates of the pair
    known. *)
Theorem missing_coordinates_C7 (haversine : num -> num -> num -> num -> num) :
  (forall aLat aLng bLat bLng,
      any_missing aLat aLng bLat bLng = true ->
      distMeters haversine aLat aLng bLat bLng = PInf) /\
  (forall (q : Q) aId a st bId b,
      lookup bId (fst st) = Some b ->
      any_missing (lat a) (lng a) (lat b) (lng b) = true ->
      catch_pair haversine (Fin q) aId a st bId = st) /\
  (forall (q : Q) ps k,
      In k (snd (detect_catches haversine (Fin q) ps)) ->
      exists aId a b,
        lookup aId ps = Some a /\ lookup k ps = Some b /\
        any_missing (lat a) (lng a) (lat b) (lng b) = false).
Proof.
  split; [|split].
  - apply distMeters_missing.
  - intros q aId a st bId b Hb Hm. unfold catch_pair. rewrite Hb.
    rewrite (distMeters_missing _ _ _ _ _ Hm). simpl.
    repeat match goal with
           | |- context [if ?c then _ else _] => destruct c
           end; reflexivity.
  - intros q ps k Hk.
    pose proof (detect_catches_inv haversine (Fin q) ps) as (_ & _ & Hj).
    destruct (Hj k Hk) as (aId & a & b & Ha & Hb & _ & _ & _ & _ & _ & _ & Hd).
    exists aId, a, b. repeat split; auto.
    destruct (any_missing (lat a) (lng a) (lat b) (lng b)) eqn:E;
      [|reflexivity].
    rewrite (distMeters_missing _ _ _ _ _ E) in Hd. discriminate.
Qed.

(** ** Projections *)

(** C9.  In a state request without [playerId], every player view sent has
    exactly the fields id, name, role, status, in that order; in
    particular it has no lat, no lng and no distance field. *)
Theorem anonymous_projection_C9
    (haversine : num -> num -> num -> num -> num)
    (nowTs sendTs : Z) (req : stateRequest) (db db' : store)
    (resp : stateResponse) :
  get_state haversine nowTs sendTs req db = (Some resp, db') ->
  q_playerId req = None ->
  forall v, In v (sent_players resp) ->
    map fst v = ["id"; "name"; "role"; "status"] /\
    field "lat" v = None /\ field "lng" v = None /\
    field "distanceToViewer" v = None /\ field "distanceToRunner" v = None.
Proof.
  intros Hget Hq v Hv. apply get_state_ok in Hget. cbv zeta in Hget.
  destruct Hget as (roomRow & _ & _ & _ & Hviews & _).
  unfold sent_players in Hv. rewrite Hviews, Hq in Hv.
  apply in_map_iff in Hv as (w & <- & Hw).
  apply in_map_iff in Hw as (p & <- & _).
  simpl. auto.
Qed.



(** ** Zone radius *)

Lemma zone_radius_unfold (r : roomRow) (nowTs : Z) :
  zone_radius r nowTs =
  spec_zone_radius (int_or (startRadius r) 800)
                   (Z.max 1 (int_num (shrinkStepSec r)))
                   (int_or (shrinkAmount r) 50)
                   (int_or_null (startedAt r)) nowTs.
Proof.
  unfold zone_radius, spec_zone_radius, int_or_null.
  destruct (startedAt r) as [t|]; [|reflexivity].
  destruct (t =? 0); reflexivity.
Qed.

(** C3, as amended.  The zoneRadius of a state response follows the
    formula of section 4.1 once the fallbacks of the handler are applied
    to the room row: a [startRadius] that is null or 0 counts as 800, a
    [shrinkStepSec] that is null or below 1 counts as 1, a [shrinkAmount]
    that is null or 0 counts as 50, and a [startedAt] that is 0 counts as
    null.  On a row where none of the fallbacks applies it is the formula
    on the row's own values. *)
Theorem zone_radius_C3 (haversine : num -> num -> num -> num -> num)
    (nowTs sendTs : Z) (req : stateRequest) (db db' : store)
    (resp : stateResponse) :
  get_state haversine nowTs sendTs req db = (Some resp, db') ->
  res_zoneRadius resp =
    spec_zone_radius (int_or (startRadius (res_room resp)) 800)
                     (Z.max 1 (int_num (shrinkStepSec (res_room resp))))
                     (int_or (shrinkAmount (res_room resp)) 50)
                     (int_or_null (startedAt (res_room resp))) nowTs /\
  (forall R s a,
      startRadius (res_room resp) = Some R -> R <> 0 ->
      shrinkStepSec (res_room resp) = Some s -> 1 <= s ->
      shrinkAmount (res_room resp) = Some a -> a <> 0 ->
      startedAt (res_room resp) <> Some 0 ->
      res_zoneRadius resp =
        spec_zone_radius R s a (startedAt (res_room resp)) nowTs).
Proof.
  intros Hget. apply get_state_ok in Hget. cbv zeta in Hget.
  destruct Hget as (roomRow & _ & -> & -> & _).
  split; [apply zone_radius_unfold|].
  intros R s a HR HR0 Hs Hs1 Ha Ha0 Ht.
  rewrite zone_radius_unfold, HR, Hs, Ha. simpl.
  apply Z.eqb_neq in HR0, Ha0. rewrite HR0, Ha0.
  rewrite Z.max_r by lia.
  destruct (startedAt roomRow) as [t|]; simpl; [|reflexivity].
  destruct (t =? 0) eqn:E; [|reflexivity].
  apply Z.eqb_eq in E. congruence.
Qed.

Lemma steps_monotone (d e1 e2 : Z) : 0 < d -> e1 <= e2 -> e1 / d <= e2 / d.
Proof. intros. now apply Z.div_le_mono. Qed.

Lemma zone_radius_started_monotone (r : roomRow) (t n1 n2 : Z) :
  startedAt r = Some t -> t <> 0 ->
  (forall a, shrinkAmount r = Some a -> 0 <= a) ->
  n1 <= n2 ->
  zone_radius r n2 <= zone_radius r n1.
Proof.
  intros Ht Ht0 Ha Hn. unfold zone_radius. rewrite Ht.
  apply Z.eqb_neq in Ht0. rewrite Ht0.
  set (d := Z.max 1 (int_num (shrinkStepSec r)) * 1000).
  assert (Hd : 0 < d) by (unfold d; lia).
  pose proof (steps_monotone d (n1 - t) (n2 - t) Hd ltac:(lia)) as Hsteps.
  assert (Hamt : 0 <= int_or (shrinkAmount r) 50).
  { unfold int_or. destruct (shrinkAmount r) as [a|]; [|lia].
    destruct (a =? 0); [lia|]. now apply Ha. }
  apply Z.max_le_compat_l. nia.
Qed.

(** C8.  Take two state responses for a room row with the same
    configuration, started (its [startedAt] is a nonzero timestamp) and
    with a shrink amount that is not negative, computed at times
    [n1 <= n2].  The later zone radius is at most the earlier one, and both
    are at least 20. *)
Theorem zone_radius_monotone_C8
    (haversine : num -> num -> num -> num -> num)
    (n1 s1 n2 s2 : Z) (req1 req2 : stateRequest) (db1 db1' db2 db2' : store)
    (resp1 resp2 : stateResponse) (t : Z) :
  get_state haversine n1 s1 req1 db1 = (Some resp1, db1') ->
  get_state haversine n2 s2 req2 db2 = (Some resp2, db2') ->
  res_room resp1 = res_room resp2 ->
  startedAt (res_room resp1) = Some t -> t <> 0 ->
  (forall a, shrinkAmount (res_room resp1) = Some a -> 0 <= a) ->
  n1 <= n2 ->
  res_zoneRadius resp2 <= res_zoneRadius resp1 /\
  20 <= res_zoneRadius resp1 /\ 20 <= res_zoneRadius resp2.
Proof.
  intros H1 H2 Hroom Ht Ht0 Ha Hn.
  apply get_state_ok in H1, H2. cbv zeta in H1, H2.
  destruct H1 as (r1 & _ & Hr1 & Hz1 & _).
  destruct H2 as (r2 & _ & Hr2 & Hz2 & _).
  rewrite Hz1, Hz2. rewrite Hr1 in Hroom, Ht, Ha.
  subst r2. rewrite <- Hroom.
  split; [now apply zone_radius_started_monotone with (t := t)|].
  unfold zone_radius. rewrite Ht.
  apply Z.eqb_neq in Ht0. rewrite Ht0. lia.
Qed.

(** ** Room creation *)

Lemma Qle_bool_false (x y : Q) : Qle_bool x y = false -> (y <= x)%Q.
Proof.
  intros H. apply Qlt_le_weak, Qnot_le_lt. intros Hle.
  apply Qle_bool_iff in Hle. congruence.
Qed.

Lemma clamp_cases (v : num) (lo hi : Z) :
  lo <= hi ->
  (v = NaN /\ clamp v (num_of_Z lo) (num_of_Z hi) = NaN) \/
  in_range lo hi (clamp v (num_of_Z lo) (num_of_Z hi)).
Proof.
  intros Hle.
  assert (HQ : (inject_Z lo <= inject_Z hi)%Q) by now rewrite <- Zle_Qle.
  assert (Hb : Qle_bool (inject_Z lo) (inject_Z hi) = true)
    by now apply Qle_bool_iff.
  unfold clamp, num_of_Z, in_range.
  destruct v as [| | |q]; simpl.
  - now left.
  - right. rewrite Hb. exists (inject_Z hi). repeat split; auto.
    apply Qle_refl.
  - right. exists (inject_Z lo). repeat split; auto. apply Qle_refl.
  - right. destruct (Qle_bool (inject_Z hi) q) eqn:E1; simpl.
    + rewrite Hb. exists (inject_Z hi). repeat split; auto. apply Qle_refl.
    + destruct (Qle_bool (inject_Z lo) q) eqn:E2.
      * exists q. repeat split.
        -- now apply Qle_bool_iff.
        -- now apply Qle_bool_false.
      * exists (inject_Z lo). repeat split; auto. apply Qle_refl.
Qed.

Lemma in_range_not_NaN (lo hi : Z) : ~ in_range lo hi NaN.
Proof. intros (q & H & _). discriminate. Qed.

(** On every body, each of the three values is inside its interval unless
    [parseInt] returned [NaN] for it. *)
Lemma room_creation_range (body : roomBody) :
  (cfg_startRadius (room_config body) = NaN \/
   in_range 20 100000 (cfg_startRadius (room_config body))) /\
  (cfg_shrinkStepSec (room_config body) = NaN \/
   in_range 1 86400 (cfg_shrinkStepSec (room_config body))) /\
  (cfg_shrinkAmount (room_config body) = NaN \/
   in_range 1 100000 (cfg_shrinkAmount (room_config body))).
Proof.
  unfold room_config. simpl. repeat split.
  - destruct (clamp_cases
                (parseInt (or_default (b_startRadius body) (RInt 800)))
                20 100000 ltac:(lia)) as [[_ H]|H]; auto.
  - destruct (clamp_cases
                (parseInt (or_default (b_shrinkStepSec body) (RInt 20)))
                1 86400 ltac:(lia)) as [[_ H]|H]; auto.
  - destruct (clamp_cases
                (parseInt (or_default (b_shrinkAmount body) (RInt 50)))
                1 100000 ltac:(lia)) as [[_ H]|H]; auto.
Qed.

Lemma sql_integer_range (lo hi : Z) (v : num) :
  v = NaN \/ in_range lo hi v ->
  sql_integer v = None \/
  exists z, sql_integer v = Some z /\ lo <= z <= hi.
Proof.
  intros [->|(q & -> & Hlo & Hhi)]; [now left|right].
  exists (Qfloor q). split; [reflexivity|].
  apply Qfloor_resp_le in Hlo, Hhi. rewrite Qfloor_Z in Hlo, Hhi. lia.
Qed.

(** The row a room creation adds: each configuration column is NULL or
    inside its interval, and the room is not started. *)
Lemma created_room_config (newCode : string) (body : roomBody) (db : store)
    (r : roomRow) :
  In r (rooms (snd (post_rooms newCode body db))) ->
  In r (rooms db) \/
  (code r = newCode /\ startedAt r = None /\
   (startRadius r = None \/
    exists z, startRadius r = Some z /\ 20 <= z <= 100000) /\
   (shrinkStepSec r = None \/
    exists z, shrinkStepSec r = Some z /\ 1 <= z <= 86400) /\
   (shrinkAmount r = None \/
    exists z, shrinkAmount r = Some z /\ 1 <= z <= 100000)).
Proof.
  unfold post_rooms. simpl. intros Hin.
  apply in_app_or in Hin as [Hin|[<-|[]]]; [now left|right].
  destruct room_creation_range with (body := body) as (H1 & H2 & H3).
  simpl. repeat split; now apply sql_integer_range.
Qed.

(** Starting a room changes no configuration column. *)
Lemma start_room_config (c : string) (nowTs : Z) (r : roomRow) :
  startRadius (start_room c nowTs r) = startRadius r /\
  shrinkStepSec (start_room c nowTs r) = shrinkStepSec r /\
  shrinkAmount (start_room c nowTs r) = shrinkAmount r.
Proof. unfold start_room. destruct (code r =? c)%string; auto. Qed.

(** C6.  Creating a room with the non-numeric startRadius "abc" binds
    [NaN] as its startRadius, which lies in no interval, and the row
    stored has no startRadius; the same holds for the other two fields. *)
Theorem room_creation_C6 :
  let body := {| b_startRadius := RStr "abc";
                 b_shrinkStepSec := RStr "abc";
                 b_shrinkAmount := RStr "abc" |} in
  let cfg := room_config body in
  (cfg_startRadius cfg = NaN /\ ~ in_range 20 100000 (cfg_startRadius cfg)) /\
  (cfg_shrinkStepSec cfg = NaN /\
   ~ in_range 1 86400 (cfg_shrinkStepSec cfg)) /\
  (cfg_shrinkAmount cfg = NaN /\
   ~ in_range 1 100000 (cfg_shrinkAmount cfg)) /\
  rooms (snd (post_rooms "ROOM03" body
                {| rooms := []; players := []; locations := [] |}))
  = [ {| code := "ROOM03"; startRadius := None; shrinkStepSec := None;
         shrinkAmount := None; startedAt := None |} ].
Proof.
  cbv zeta. repeat split; try reflexivity; apply in_range_not_NaN.
Qed.

(** ** Location writes *)

(** C10.  A location update whose [lat] is a number and whose [lng] is
    [null] passes the guard of line 131 and is stored; the snapshot of the
    next state request then has a player whose [lat] is known while its
    [lng] is null.  With the two swapped, the player has a null [lat] and
    a known [lng]. *)
Theorem location_half_null_C10 :
  let db0 := {| rooms := [ {| code := "ROOM01"; startRadius := Some 800;
                              shrinkStepSec := Some 20;
                              shrinkAmount := Some 50; startedAt := None |} ];
                players := [ {| p_id := "p1"; p_room := "ROOM01";
                                p_name := "Ann"; p_role := "hunter";
                                p_status := Some "ready";
                                p_lastSeen := Some 1000 |} ];
                locations := [] |} in
  let body1 := {| lb_playerId := Some "p1";
                  lb_lat := CNum (num_of_Z 48); lb_lng := CNull |} in
  let body2 := {| lb_playerId := Some "p1";
                  lb_lat := CNull; lb_lng := CNum (num_of_Z 11) |} in
  (fst (post_location 2000 body1 db0) = Ok /\
   map (fun p => (lat p, lng p))
       (build_players (load_rows (snd (post_location 2000 body1 db0)) "ROOM01"))
   = [ (CNum (num_of_Z 48), CNull) ]) /\
  (fst (post_location 2000 body2 db0) = Ok /\
   map (fun p => (lat p, lng p))
       (build_players (load_rows (snd (post_location 2000 body2 db0)) "ROOM01"))
   = [ (CNull, CNum (num_of_Z 11)) ]).
Proof. cbv zeta. repeat split; reflexivity. Qed.

(** ** The catch threshold *)














(** ** Worked examples *)

(** On the sample store: the hunter h1 stands on the runner r1, so the
    response shows r1 caught and its row is updated; the runner r2 is one
    degree away from h1 and h2 has no location, so r2 stays ready. *)
Lemma catch_detection_C1_witness :
  match get_state grid_distance 46000 46001 (sample_request None)
          sample_store with
  | (Some resp, db') =>
      (forall v, In v (sent_players resp) ->
                 field "id" v = Some (JStr "r1") ->
                 field "status" v = Some (JStr "caught")) /\
      (forall row, In row (players db') -> p_id row = "r1" ->
                   p_status row = Some "caught") /\
      (forall v, In v (sent_players resp) ->
                 field "id" v = Some (JStr "r2") ->
                 field "status" v = Some (JStr "ready"))
  | (None, _) => False
  end.
Proof.
  destruct (get_state grid_distance 46000 46001 (sample_request None)
              sample_store) as [[resp|] db'] eqn:E;
    [|vm_compute in E; discriminate E].
  destruct (catch_detection_C1 grid_distance 46000 46001 (sample_request None)
              sample_store db' resp "r1"
              {| id := "r1"; name := "Bob"; role := "runner";
                 status := "ready"; lastSeen := Some 1000;
                 lat := CNum (num_of_Z 10); lng := CNum (num_of_Z 10);
                 locTs := Some 1000 |}
              (num_of_Z 10) (num_of_Z 10)
              E eq_refl eq_refl eq_refl eq_refl) as [Hnear _].
  destruct (Hnear "h1"
              {| id := "h1"; name := "Ann"; role := "hunter";
                 status := "ready"; lastSeen := Some 1000;
                 lat := CNum (num_of_Z 10); lng := CNum (num_of_Z 10);
                 locTs := Some 1000 |}
              (num_of_Z 10) (num_of_Z 10))
    as (_ & Hview & _ & Hrow).
  - vm_compute. reflexivity.
  - reflexivity.
  - reflexivity.
  - reflexivity.
  - vm_compute. reflexivity.
  - simpl. discriminate.
  - split; [assumption|]. split; [assumption|].
    destruct (catch_detection_C1 grid_distance 46000 46001
                (sample_request None) sample_store db' resp "r2"
                {| id := "r2"; name := "Cid"; role := "runner";
                   status := "ready"; lastSeen := Some 1000;
                   lat := CNum (num_of_Z 11); lng := CNum (num_of_Z 10);
                   locTs := Some 1000 |}
                (num_of_Z 11) (num_of_Z 10)
                E eq_refl eq_refl eq_refl eq_refl) as (_ & _ & Hfar).
    apply Hfar. intros aId a Ha Hra Hla.
    apply lookup_id in Ha as [Hid Hin]. vm_compute in Hin.
    destruct Hin as [<-|[<-|[<-|[<-|[]]]]];
      try discriminate Hra; try discriminate Hla.
    vm_compute. reflexivity.
Defined.


(** On the sample room, 45 seconds after the start: two steps of 50 meters
    off 800. *)
Lemma zone_radius_C3_witness :
  match get_state grid_distance 46000 46001 (sample_request None)
          sample_store with
  | (Some resp, _) => res_zoneRadius resp = 700
  | (None, _) => False
  end.
Proof.
  destruct (get_state grid_distance 46000 46001 (sample_request None)
              sample_store) as [[resp|] db'] eqn:E;
    [|vm_compute in E; discriminate E].
  destruct (zone_radius_C3 grid_distance 46000 46001 (sample_request None)
              sample_store db' resp E) as [_ Hplain].
  vm_compute in E. injection E as <- <-.
  rewrite (Hplain 800 20 50); try reflexivity; try lia; discriminate.
Defined.

(** Creating a room with the startRadius "abc" leaves a row whose
    startRadius is NULL. *)
Lemma created_room_without_radius :
  snd (post_rooms "ROOM02"
         {| b_startRadius := RStr "abc"; b_shrinkStepSec := RUndefined;
            b_shrinkAmount := RUndefined |}
         {| rooms := []; players := []; locations := [] |})
  = {| rooms := [ {| code := "ROOM02"; startRadius := None;
                     shrinkStepSec := Some 20; shrinkAmount := Some 50;
                     startedAt := None |} ];
       players := []; locations := [] |}.
Proof. reflexivity. Qed.

(** On a room row whose startRadius is NULL and that is not started, a
    state request answers zoneRadius 800: the answer is not the stored
    startRadius. *)
Lemma zone_radius_C3_counterexample :
  ~ (forall (haversine : num -> num -> num -> num -> num)
            (nowTs sendTs : Z) (req : stateRequest) (db db' : store)
            (resp : stateResponse),
        get_state haversine nowTs sendTs req db = (Some resp, db') ->
        startedAt (res_room resp) = None ->
        startRadius (res_room resp) = Some (res_zoneRadius resp)).
Proof.
  intros H.
  specialize (H grid_distance 5000 5001
                {| q_room := "ROOM02"; q_playerId := None;
                   q_catchMeters := None |}
                {| rooms := [ {| code := "ROOM02"; startRadius := None;
                                 shrinkStepSec := Some 20;
                                 shrinkAmount := Some 50;
                                 startedAt := None |} ];
                   players := []; locations := [] |}
                _ _ eq_refl eq_refl).
  discriminate H.
Qed.

(** A pass on the sample snapshot leaves the caught runner caught. *)
Lemma catch_monotonic_C4_witness :
  exists p',
    lookup "r1"
      (fst (detect_catches grid_distance (num_of_Z 30)
              (set_status "r1" "caught"
                 (build_players (load_rows sample_store "ROOM01")))))
    = Some p' /\ status p' = "caught".
Proof.
  destruct (catch_monotonic_C4 grid_distance (num_of_Z 30)
              (set_status "r1" "caught"
                 (build_players (load_rows sample_store "ROOM01"))))
    as (Hpass & _ & _).
  destruct (Hpass "r1"
              {| id := "r1"; name := "Bob"; role := "runner";
                 status := "caught"; lastSeen := Some 1000;
                 lat := CNum (num_of_Z 10); lng := CNum (num_of_Z 10);
                 locTs := Some 1000 |} eq_refl)
    as (p' & Hp' & _ & Hkeep & _).
  exists p'. split; [exact Hp' | apply Hkeep; reflexivity].
Defined.



(** On the sample snapshot the hunter h2 has no location: its step with
    the runner r1 changes nothing. *)
Lemma missing_coordinates_C7_witness :
  let ps := build_players (load_rows sample_store "ROOM01") in
  catch_pair grid_distance (num_of_Z 30) "h2"
    {| id := "h2"; name := "Dee"; role := "hunter"; status := "ready";
       lastSeen := Some 1000; lat := CNull; lng := CNull; locTs := None |}
    (ps, []) "r1" = (ps, []).
Proof.
  destruct (missing_coordinates_C7 grid_distance) as (_ & Hpair & _).
  cbv zeta.
  apply (Hpair (inject_Z 30) "h2" _ _ "r1"
           {| id := "r1"; name := "Bob"; role := "runner";
              status := "ready"; lastSeen := Some 1000;
              lat := CNum (num_of_Z 10); lng := CNum (num_of_Z 10);
              locTs := Some 1000 |});
    reflexivity.
Defined.

(** On the sample room: 700 meters after 45 seconds, 650 after 65. *)
Lemma zone_radius_monotone_C8_witness :
  match get_state grid_distance 46000 46001 (sample_request None)
          sample_store,
        get_state grid_distance 66000 66001 (sample_request None)
          sample_store with
  | (Some resp1, _), (Some resp2, _) =>
      res_zoneRadius resp2 <= res_zoneRadius resp1 /\
      20 <= res_zoneRadius resp1 /\ 20 <= res_zoneRadius resp2
  | _, _ => False
  end.
Proof.
  destruct (get_state grid_distance 46000 46001 (sample_request None)
              sample_store) as [[resp1|] db1'] eqn:E1;
    [|vm_compute in E1; discriminate E1].
  destruct (get_state grid_distance 66000 66001 (sample_request None)
              sample_store) as [[resp2|] db2'] eqn:E2;
    [|vm_compute in E2; discriminate E2].
  apply (zone_radius_monotone_C8 grid_distance 46000 46001 66000 66001
           (sample_request None) (sample_request None)
           sample_store db1' sample_store db2' resp1 resp2 1000 E1 E2);
    vm_compute in E1, E2; injection E1 as <- <-; injection E2 as <- <-.
  - reflexivity.
  - reflexivity.
  - discriminate.
  - intros a Ha. injection Ha as <-. lia.
  - lia.
Defined.

(** On the sample store without a viewer: every view has the four
    fields. *)
Lemma anonymous_projection_C9_witness :
  match get_state grid_distance 46000 46001 (sample_request None)
          sample_store with
  | (Some resp, _) =>
      forall v, In v (sent_players resp) ->
                map fst v = ["id"; "name"; "role"; "status"]
  | (None, _) => False
  end.
Proof.
  destruct (get_state grid_distance 46000 46001 (sample_request None)
              sample_store) as [[resp|] db'] eqn:E;
    [|vm_compute in E; discriminate E].
  intros v Hv.
  apply (anonymous_projection_C9 grid_distance 46000 46001
           (sample_request None) sample_store db' resp E eq_refl v Hv).
Defined.

(** * Further properties of the handlers *)

(** ** Lists of rows *)

Lemma NoDup_map_filter {A B : Type} (f : A -> B) (g : A -> bool)
    (l : list A) :
  NoDup (map f l) -> NoDup (map f (filter g l)).
Proof.
  induction l as [|x l IH]; simpl; intros Hnd; [constructor|].
  inversion Hnd as [|? ? Hx Hl]; subst.
  destruct (g x); simpl; [|now apply IH].
  constructor; [|now apply IH].
  intros Hin. apply Hx. apply in_map_iff in Hin as (y & Hy & Hyin).
  apply filter_In in Hyin as [Hyin _]. rewrite <- Hy. now apply in_map.
Qed.

Lemma upsert_location_keys (l : locationRow) (ls : list locationRow)
    (k : string) :
  In k (map l_playerId (upsert_location l ls)) <->
  k = l_playerId l \/ In k (map l_playerId ls).
Proof.
  induction ls as [|x t IH]; simpl.
  - intuition.
  - destruct (l_playerId x =? l_playerId l)%string eqn:E; simpl.
    + apply String.eqb_eq in E. rewrite E. intuition.
    + rewrite IH. intuition.
Qed.

Lemma upsert_location_NoDup (l : locationRow) (ls : list locationRow) :
  NoDup (map l_playerId ls) ->
  NoDup (map l_playerId (upsert_location l ls)).
Proof.
  induction ls as [|x t IH]; simpl; intros Hnd.
  - repeat constructor. intros [].
  - inversion Hnd as [|? ? Hx Ht]; subst.
    destruct (l_playerId x =? l_playerId l)%string eqn:E; simpl.
    + apply String.eqb_eq in E. rewrite <- E. now constructor.
    + constructor; [|now apply IH].
      rewrite upsert_location_keys. intros [H|H]; [|contradiction].
      apply String.eqb_neq in E. congruence.
Qed.

Lemma upsert_location_In (l x : locationRow) (ls : list locationRow) :
  In x (upsert_location l ls) -> x = l \/ In x ls.
Proof.
  induction ls as [|y t IH]; simpl.
  - intuition.
  - destruct (l_playerId y =? l_playerId l)%string; simpl; intuition.
Qed.

(** The location row of a player after an upsert for key [k]: the new row
    for [k], the old one for any other key. *)
Lemma find_upsert_location (l : locationRow) (ls : list locationRow)
    (k : string) :
  find (fun x => (l_playerId x =? k)%string) (upsert_location l ls) =
  if (l_playerId l =? k)%string then Some l
  else find (fun x => (l_playerId x =? k)%string) ls.
Proof.
  induction ls as [|y t IH]; simpl.
  - destruct (l_playerId l =? k)%string; reflexivity.
  - destruct (l_playerId y =? l_playerId l)%string eqn:E; simpl.
    + apply String.eqb_eq in E. rewrite E.
      destruct (l_playerId l =? k)%string; reflexivity.
    + rewrite IH. destruct (l_playerId y =? k)%string eqn:E2;
        [|reflexivity].
      apply String.eqb_eq in E2. subst k. now rewrite String.eqb_sym, E.
Qed.

Lemma touch_player_id (k : string) (ts : Z) (p : playerRow) :
  p_id (touch_player k ts p) = p_id p /\
  p_room (touch_player k ts p) = p_room p /\
  p_name (touch_player k ts p) = p_name p /\
  p_role (touch_player k ts p) = p_role p /\
  p_status (touch_player k ts p) = p_status p.
Proof. unfold touch_player. destruct (p_id p =? k)%string; simpl; auto. Qed.

Lemma set_caught_frame (log : list string) (db : store) :
  rooms (fold_left db_set_caught log db) = rooms db /\
  locations (fold_left db_set_caught log db) = locations db.
Proof.
  revert db. induction log as [|k log IH]; intros db; simpl; [auto|].
  destruct (IH (db_set_caught db k)) as [-> ->]. auto.
Qed.

(** ** The stores the handlers leave *)

(** The writes of a state request: the UPDATE statements of its detection
    pass, none when the room is unknown. *)
Lemma get_state_store (haversine : num -> num -> num -> num -> num)
    (nowTs sendTs : Z) (req : stateRequest) (db : store) :
  exists log,
    snd (get_state haversine nowTs sendTs req db)
    = fold_left db_set_caught log db /\
    (fst (get_state haversine nowTs sendTs req db) = None -> log = []) /\
    (fst (get_state haversine nowTs sendTs req db) <> None ->
     log = snd (detect_catches haversine (catchMeters_of (q_catchMeters req))
                  (build_players
                     (load_rows db (toUpperCase (q_room req)))))).
Proof.
  unfold get_state.
  destruct (getRoom db (toUpperCase (q_room req))) as [r|].
  - destruct (detect_catches _ _ _) as [ps writes] eqn:E.
    exists writes. simpl. repeat split; auto. discriminate.
  - exists []. simpl. repeat split; auto. congruence.
Qed.

Lemma substring_length (m : nat) (s : string) :
  (String.length (substring 0 m s) <= m)%nat.
Proof.
  revert s. induction m as [|m IH]; intros s.
  - destruct s; simpl; lia.
  - destruct s as [|c s]; simpl; [lia|]. specialize (IH s). lia.
Qed.

Lemma join_role_cases (r : option string) :
  join_role r = "hunter" \/ join_role r = "runner".
Proof.
  unfold join_role. destruct r as [r|]; [|now left].
  destruct (r =? "runner")%string; auto.
Qed.

Lemma map_id_caught (log : list string) (ps : list playerRow) :
  map p_id (map (fun p => if existsb (String.eqb (p_id p)) log
                          then caught_row p else p) ps) = map p_id ps.
Proof.
  rewrite map_map. apply map_ext. intros p.
  now destruct (existsb _ log).
Qed.

Lemma map_id_touch (k : string) (ts : Z) (ps : list playerRow) :
  map p_id (map (touch_player k ts) ps) = map p_id ps.
Proof.
  rewrite map_map. apply map_ext. intros p. apply touch_player_id.
Qed.

Lemma store_ok_empty : store_ok empty_store.
Proof.
  constructor; simpl; try (intros ? []); constructor.
Qed.

Lemma store_ok_insert_room (newCode : string) (body : roomBody) (db : store) :
  store_ok db -> store_ok (snd (insert_room newCode body db)).
Proof.
  intros Hok. unfold insert_room.
  destruct (existsb _ (rooms db)) eqn:Ex; [exact Hok|].
  cbn [snd]. destruct Hok as [H1 H2 H3 H4 H5 H6 H7].
  constructor; simpl; auto.
  - intros p Hp. destruct (H2 p Hp) as (r & Hr & Hc).
    exists r. split; [apply in_or_app; now left|exact Hc].
  - intros r Hr.
    destruct (created_room_config newCode body db r Hr)
      as [Hold|(_ & _ & Ha & Hb & Hc)]; [now apply H6|].
    repeat split.
    + destruct Ha as [->|(z & -> & Hz)]; simpl; auto.
    + destruct Hb as [->|(z & -> & Hz)]; simpl; auto.
    + destruct Hc as [->|(z & -> & Hz)]; simpl; auto.
  - rewrite map_app. simpl. apply NoDup_app; [exact H7| |].
    + repeat constructor. intros [].
    + intros x Hx [<-|[]].
      apply in_map_iff in Hx as (r & Hc & Hr).
      assert (Ht : existsb (fun r => (code r =? newCode)%string) (rooms db)
                   = true).
      { apply existsb_exists. exists r. split; [exact Hr|].
        now apply String.eqb_eq. }
      congruence.
Qed.

Lemma store_ok_post_start (nowTs : Z) (c : string) (db : store) :
  store_ok db -> store_ok (snd (post_start nowTs c db)).
Proof.
  intros Hok. unfold post_start.
  destruct (existsb _ (rooms db)); simpl; [|exact Hok].
  destruct Hok as [H1 H2 H3 H4 H5 H6 H7]. constructor; simpl; auto.
  - intros p Hp. destruct (H2 p Hp) as (r & Hr & Hc).
    exists (start_room (toUpperCase c) nowTs r). split.
    + now apply in_map.
    + rewrite <- Hc. unfold start_room.
      now destruct (code r =? toUpperCase c)%string.
  - intros r' Hr'. apply in_map_iff in Hr' as (r & <- & Hr).
    destruct (start_room_config (toUpperCase c) nowTs r) as (-> & -> & ->).
    now apply H6.
  - rewrite map_map.
    replace (map (fun r => code (start_room (toUpperCase c) nowTs r))
                 (rooms db)) with (map code (rooms db)); [exact H7|].
    apply map_ext. intros r. unfold start_room.
    now destruct (code r =? toUpperCase c)%string.
Qed.

Lemma post_join_joined (newId : string) (ts : Z) (body : joinBody)
    (db db' : store) (i nm rl room : string) :
  post_join newId ts body db = (Joined i nm rl room, db') ->
  i = newId /\
  room = toUpperCase (str_or (jb_room body) "") /\
  (exists sl, sliced_name (jb_name body) = Some sl /\
              bound_name sl = Some nm) /\
  rl = join_role (jb_role body) /\
  room <> "" /\
  (exists r, getRoom db room = Some r) /\
  (forall p, In p (players db) -> p_id p <> newId) /\
  db' = {| rooms := rooms db;
           players := players db ++
             [ {| p_id := newId; p_room := room; p_name := nm;
                  p_role := rl; p_status := Some "ready";
                  p_lastSeen := Some ts |} ];
           locations := locations db |}.
Proof.
  unfold post_join.
  destruct (sliced_name (jb_name body)) as [sl|] eqn:E0; [|discriminate].
  destruct (toUpperCase (str_or (jb_room body) "") =? "")%string eqn:E1;
    [discriminate|].
  destruct (getRoom db _) as [r|] eqn:E2; [|discriminate].
  destruct (bound_name sl) as [nm'|] eqn:E4; [|discriminate].
  destruct (existsb _ (players db)) eqn:E3; [discriminate|].
  intros H. injection H as <- <- <- <- <-.
  apply String.eqb_neq in E1. repeat split; eauto.
  intros p Hp Hid.
  assert (Ht : existsb (fun p => (p_id p =? newId)%string) (players db)
               = true).
  { apply existsb_exists. exists p. split; [exact Hp|].
    now apply String.eqb_eq. }
  congruence.
Qed.

Lemma post_join_cases (newId : string) (ts : Z) (body : joinBody)
    (db : store) :
  snd (post_join newId ts body db) = db \/
  exists i nm rl room db',
    post_join newId ts body db = (Joined i nm rl room, db').
Proof.
  unfold post_join.
  destruct (sliced_name (jb_name body)); [|now left].
  destruct (toUpperCase _ =? "")%string; [now left|].
  destruct (getRoom db _); [|now left].
  destruct (bound_name _); [|now left].
  destruct (existsb _ (players db)); [now left|].
  right. eauto 10.
Qed.

Lemma store_ok_post_join (newId : string) (ts : Z) (body : joinBody)
    (db : store) :
  store_ok db -> store_ok (snd (post_join newId ts body db)).
Proof.
  intros Hok.
  destruct (post_join_cases newId ts body db)
    as [->|(i & nm & rl & room & db' & E)]; [exact Hok|].
  rewrite E. cbn [snd].
  apply post_join_joined in E
    as (-> & _ & _ & -> & _ & (r & Er) & Hfresh & ->).
  destruct Hok as [H1 H2 H3 H4 H5 H6 H7]. constructor; simpl; auto.
  - intros l Hl. destruct (H1 l Hl) as (p & Hp & Hid).
    exists p. split; [apply in_or_app; now left|exact Hid].
  - intros p Hp. apply in_app_or in Hp as [Hp|[<-|[]]]; [now apply H2|].
    simpl. unfold getRoom in Er. apply find_some in Er as [Hr Hc].
    apply String.eqb_eq in Hc. eauto.
  - rewrite map_app. simpl. apply NoDup_app; [exact H3| |].
    + repeat constructor. intros [].
    + intros x Hx [<-|[]].
      apply in_map_iff in Hx as (p & Hpid & Hp).
      now apply (Hfresh p Hp).
  - intros p Hp. apply in_app_or in Hp as [Hp|[<-|[]]]; [now apply H5|].
    simpl. split.
    + apply join_role_cases.
    + now left.
Qed.

Lemma store_ok_post_leave (foreign_keys : bool) (playerId : option string)
    (db : store) :
  store_ok db -> store_ok (snd (post_leave foreign_keys playerId db)).
Proof.
  intros Hok. unfold post_leave.
  destruct (str_falsy playerId); [exact Hok|].
  destruct playerId as [k|]; [|exact Hok].
  destruct (foreign_keys && _ && _); [exact Hok|]. cbn [snd].
  destruct Hok as [H1 H2 H3 H4 H5 H6 H7]. constructor; simpl; auto.
  - intros l Hl. apply filter_In in Hl as [Hl Hk].
    destruct (H1 l Hl) as (p & Hp & Hid). exists p. split; [|exact Hid].
    apply filter_In. split; [exact Hp|]. now rewrite Hid.
  - intros p Hp. apply filter_In in Hp as [Hp _]. now apply H2.
  - now apply NoDup_map_filter.
  - now apply NoDup_map_filter.
  - intros p Hp. apply filter_In in Hp as [Hp _]. now apply H5.
Qed.

Lemma store_ok_post_location (ts : Z) (body : locationBody) (db : store) :
  store_ok db -> store_ok (snd (post_location ts body db)).
Proof.
  intros Hok. unfold post_location.
  destruct (str_falsy (lb_playerId body) || _ || _); [exact Hok|].
  destruct (lb_playerId body) as [k|]; [|exact Hok].
  destruct (find _ (players db)) as [p0|] eqn:Ef; [|exact Hok]. simpl.
  apply find_some in Ef as [Hp0 Hk0]. apply String.eqb_eq in Hk0.
  destruct Hok as [H1 H2 H3 H4 H5 H6 H7]. constructor; simpl; auto.
  - intros l Hl. apply upsert_location_In in Hl as [->|Hl].
    + exists (touch_player k ts p0). split; [now apply in_map|].
      simpl. destruct (touch_player_id k ts p0) as (-> & _). exact Hk0.
    + destruct (H1 l Hl) as (p & Hp & Hid).
      exists (touch_player k ts p). split; [now apply in_map|].
      destruct (touch_player_id k ts p) as (-> & _). exact Hid.
  - intros p' Hp'. apply in_map_iff in Hp' as (p & <- & Hp).
    destruct (touch_player_id k ts p) as (_ & -> & _). now apply H2.
  - now rewrite map_id_touch.
  - now apply upsert_location_NoDup.
  - intros p' Hp'. apply in_map_iff in Hp' as (p & <- & Hp).
    destruct (touch_player_id k ts p) as (_ & _ & _ & -> & ->).
    now apply H5.
Qed.

Lemma store_ok_get_state (haversine : num -> num -> num -> num -> num)
    (nowTs sendTs : Z) (req : stateRequest) (db : store) :
  store_ok db -> store_ok (snd (get_state haversine nowTs sendTs req db)).
Proof.
  intros [H1 H2 H3 H4 H5 H6 H7].
  destruct (get_state_store haversine nowTs sendTs req db)
    as (log & -> & _).
  destruct (set_caught_frame log db) as [Hr Hl].
  constructor; rewrite ?Hr, ?Hl, ?db_set_caught_players; auto.
  - intros l Hl'. destruct (H1 l Hl') as (p & Hp & Hid).
    exists (if existsb (String.eqb (p_id p)) log then caught_row p else p).
    split.
    + now apply in_map with
        (f := fun p => if existsb (String.eqb (p_id p)) log
                       then caught_row p else p).
    + now destruct (existsb _ log).
  - intros p' Hp'. apply in_map_iff in Hp' as (p & <- & Hp).
    destruct (H2 p Hp) as (r & Hr' & Hc). exists r.
    split; [exact Hr'|]. now destruct (existsb _ log).
  - now rewrite map_id_caught.
  - intros p' Hp'. apply in_map_iff in Hp' as (p & <- & Hp).
    destruct (H5 p Hp) as (Ha & Hb).
    destruct (existsb _ log); simpl; auto.
Qed.

Lemma store_ok_handle (haversine : num -> num -> num -> num -> num)
    (foreign_keys : bool) (r : request) (db : store) :
  store_ok db -> store_ok (handle haversine foreign_keys r db).
Proof.
  destruct r; simpl.
  - apply store_ok_insert_room.
  - apply store_ok_post_start.
  - apply store_ok_post_join.
  - apply store_ok_post_leave.
  - apply store_ok_post_location.
  - apply store_ok_get_state.
Qed.

Lemma store_ok_run (haversine : num -> num -> num -> num -> num)
    (foreign_keys : bool) (rs : list request) (db : store) :
  store_ok db -> store_ok (run haversine foreign_keys rs db).
Proof.
  unfold run. apply fold_left_invariant.
  intros s x _. apply store_ok_handle.
Qed.

(** *** The length of the stored names *)

Lemma bound_name_short (n : bodyName) (sl : slicedName) (nm : string) :
  sliced_name n = Some sl -> bound_name sl = Some nm ->
  (forall a, n <> NameArr a) -> (String.length nm <= 40)%nat.
Proof.
  intros Hs Hb Hn. destruct n as [|s0|a|]; cbn [sliced_name] in Hs.
  - injection Hs as <-. injection Hb as <-. simpl. lia.
  - injection Hs as <-. injection Hb as <-. apply substring_length.
  - exfalso. now apply (Hn a).
  - discriminate Hs.
Qed.

Lemma names_short_handle (haversine : num -> num -> num -> num -> num)
    (foreign_keys : bool) (r : request) (db : store) :
  (forall newId ts body a, r = Join newId ts body ->
                           jb_name body <> NameArr a) ->
  names_short db -> names_short (handle haversine foreign_keys r db).
Proof.
  intros Hr HQ. unfold names_short in *.
  destruct r as [c b|t c|newId ts body|pid|ts body|n s' req]; simpl.
  - unfold insert_room. destruct (existsb _ (rooms db)); exact HQ.
  - unfold post_start. destruct (existsb _ (rooms db)); exact HQ.
  - destruct (post_join_cases newId ts body db)
      as [->|(i & nm & rl & room & db' & E)]; [exact HQ|].
    rewrite E. cbn [snd].
    apply post_join_joined in E
      as (_ & _ & (sl & Hs & Hb) & _ & _ & _ & _ & ->).
    simpl. intros p Hp. apply in_app_or in Hp as [Hp|[<-|[]]];
      [now apply HQ|].
    simpl. apply (bound_name_short (jb_name body) sl nm Hs Hb).
    intros a. now apply (Hr newId ts body a).
  - unfold post_leave. destruct (str_falsy pid); [exact HQ|].
    destruct pid as [k'|]; [|exact HQ].
    destruct (foreign_keys && _ && _); [exact HQ|]. cbn [snd players].
    intros p Hp. apply filter_In in Hp as [Hp _]. now apply HQ.
  - unfold post_location.
    destruct (str_falsy (lb_playerId body) || _ || _); [exact HQ|].
    destruct (lb_playerId body) as [k'|]; [|exact HQ].
    destruct (find _ (players db)) as [q0|]; [|exact HQ]. simpl.
    intros p' Hp'. apply in_map_iff in Hp' as (p & <- & Hp).
    destruct (touch_player_id k' ts p) as (_ & _ & -> & _).
    now apply HQ.
  - destruct (get_state_store haversine n s' req db) as (log & -> & _).
    rewrite db_set_caught_players.
    intros p' Hp'. apply in_map_iff in Hp' as (p & <- & Hp).
    destruct (existsb _ log); simpl; now apply HQ.
Qed.

Lemma names_short_run (haversine : num -> num -> num -> num -> num)
    (foreign_keys : bool) (rs : list request) (db : store) :
  string_names rs -> names_short db ->
  names_short (run haversine foreign_keys rs db).
Proof.
  intros Hrs HQ. unfold run.
  apply (fold_left_invariant names_short); [|exact HQ].
  intros d r Hr Hd. apply names_short_handle; [|exact Hd].
  intros newId ts body a ->. now apply (Hrs newId ts body a).
Qed.

(** ** Stores reached by requests *)

(** X1.  In every store reached from the empty tables by any sequence of
    requests, each location row belongs to a player row and each player
    row to a room row. *)
Theorem reachable_references
    (haversine : num -> num -> num -> num -> num) (foreign_keys : bool)
    (rs : list request) :
  (forall l, In l (locations (run haversine foreign_keys rs empty_store)) ->
     exists p, In p (players (run haversine foreign_keys rs empty_store)) /\
               p_id p = l_playerId l) /\
  (forall p, In p (players (run haversine foreign_keys rs empty_store)) ->
     exists r, In r (rooms (run haversine foreign_keys rs empty_store)) /\
               code r = p_room p).
Proof.
  destruct (store_ok_run haversine foreign_keys rs empty_store
              store_ok_empty)
    as [H1 H2 _ _ _ _ _].
  split; assumption.
Qed.

(** X2.  In every store reached from the empty tables, no two player rows
    share an id, no player has two location rows and no two rooms share a
    code. *)
Theorem reachable_unique_keys
    (haversine : num -> num -> num -> num -> num) (foreign_keys : bool)
    (rs : list request) :
  NoDup (map p_id (players (run haversine foreign_keys rs empty_store))) /\
  NoDup (map l_playerId
             (locations (run haversine foreign_keys rs empty_store))) /\
  NoDup (map code (rooms (run haversine foreign_keys rs empty_store))).
Proof.
  destruct (store_ok_run haversine foreign_keys rs empty_store
              store_ok_empty)
    as [_ _ H3 H4 _ _ H7].
  repeat split; assumption.
Qed.

(** X3.  In every store reached from the empty tables, each player row has
    role 'hunter' or 'runner' and status 'ready' or 'caught'.  Its name
    has at most 40 characters when no join of the sequence carried an
    array as name: line 108 cuts a string to 40 characters, and an array
    to 40 elements, of which the one that is bound may be of any
    length. *)
Theorem reachable_player_columns
    (haversine : num -> num -> num -> num -> num) (foreign_keys : bool)
    (rs : list request) (p : playerRow) :
  In p (players (run haversine foreign_keys rs empty_store)) ->
  (p_role p = "hunter" \/ p_role p = "runner") /\
  (p_status p = Some "ready" \/ p_status p = Some "caught") /\
  (string_names rs -> (String.length (p_name p) <= 40)%nat).
Proof.
  intros Hp.
  destruct (store_ok_run haversine foreign_keys rs empty_store
              store_ok_empty)
    as [_ _ _ _ H5 _ _].
  destruct (H5 p Hp) as [Hrole Hstatus].
  split; [exact Hrole|]. split; [exact Hstatus|].
  intros Hrs.
  apply (names_short_run haversine foreign_keys rs empty_store Hrs);
    [|exact Hp].
  intros q [].
Qed.

Lemma int_or_within (lo hi d : Z) (v : option Z) :
  0 < lo -> lo <= d <= hi -> null_or_within lo hi v ->
  lo <= int_or v d <= hi.
Proof.
  intros Hlo Hd Hv. unfold int_or. destruct v as [z|]; [|exact Hd].
  simpl in Hv. destruct (z =? 0) eqn:E; [exact Hd|exact Hv].
Qed.

(** X4.  For a room of a store reached from the empty tables, the
    zoneRadius of every state response is at least 20 whatever the clock
    says, and at most 100000 when the clock is not behind the room's
    startedAt; for two requests on the same started room at times
    [n1 <= n2] the later radius is at most the earlier one. *)
Theorem reachable_zone_radius
    (haversine : num -> num -> num -> num -> num) (foreign_keys : bool)
    (rs : list request)
    (r : roomRow) :
  In r (rooms (run haversine foreign_keys rs empty_store)) ->
  (forall nowTs, 20 <= zone_radius r nowTs) /\
  (forall nowTs,
      (forall t, startedAt r = Some t -> t <= nowTs) ->
      zone_radius r nowTs <= 100000) /\
  (forall n1 n2, n1 <= n2 -> zone_radius r n2 <= zone_radius r n1).
Proof.
  intros Hr.
  destruct (store_ok_run haversine foreign_keys rs empty_store
              store_ok_empty)
    as [_ _ _ _ _ H6 _].
  destruct (H6 r Hr) as (HR & HS & HA).
  pose proof (int_or_within 20 100000 800 (startRadius r)
                ltac:(lia) ltac:(lia) HR) as HR'.
  pose proof (int_or_within 1 100000 50 (shrinkAmount r)
                ltac:(lia) ltac:(lia) HA) as HA'.
  split; [|split].
  - intros nowTs. unfold zone_radius.
    destruct (startedAt r) as [t|]; [|lia].
    destruct (t =? 0); lia.
  - intros nowTs Hclock. unfold zone_radius.
    destruct (startedAt r) as [t|]; [|lia].
    destruct (t =? 0); [lia|].
    specialize (Hclock t eq_refl).
    set (d := Z.max 1 (int_num (shrinkStepSec r)) * 1000).
    assert (Hd : 0 < d) by (unfold d; lia).
    assert (Hs : 0 <= (nowTs - t) / d) by (apply Z.div_pos; lia).
    nia.
  - intros n1 n2 Hn.
    destruct (startedAt r) as [t|] eqn:Et.
    + destruct (Z.eq_dec t 0) as [->|Ht].
      * unfold zone_radius. rewrite Et. simpl. lia.
      * apply zone_radius_started_monotone with (t := t); auto.
        intros a Ha. rewrite Ha in HA. simpl in HA. lia.
    + unfold zone_radius. rewrite Et. lia.
Qed.

(** ** More on the projection *)

Lemma build_players_coords (rows : list snapRow) (p : player) :
  In p (build_players rows) ->
  lat p <> CUndefined /\ lng p <> CUndefined.
Proof.
  intros Hp. apply build_players_In in Hp as (r & _ & ->). simpl.
  unfold coord_or_null.
  destruct (r_lat r), (r_lng r); simpl; split; discriminate.
Qed.

Lemma detected_coords (haversine : num -> num -> num -> num -> num)
    (c : num) (rows : list snapRow) (p : player) :
  In p (fst (detect_catches haversine c (build_players rows))) ->
  lat p <> CUndefined /\ lng p <> CUndefined.
Proof.
  pose proof (detect_catches_inv haversine c (build_players rows))
    as (Hfst & _ & _).
  rewrite Hfst. unfold mark. intros Hp.
  apply in_map_iff in Hp as (p0 & <- & Hp0).
  destruct (marked_fields (snd (detect_catches haversine c
                                  (build_players rows))) p0)
    as (_ & _ & -> & -> & _).
  now apply build_players_coords in Hp0.
Qed.



(** X6.  In a state request whose [playerId] names a player of the room
    whose role is not 'hunter', the viewer's own view has the fields id,
    name, role, status, lat, lng, lastSeen with the viewer's stored
    coordinates, and the view of any other player that is not a hunter has
    only id, name, role, status, lastSeen: no coordinates and no
    distance. *)
Theorem runner_sees_self_and_runners
    (haversine : num -> num -> num -> num -> num)
    (nowTs sendTs : Z) (req : stateRequest) (db db' : store)
    (resp : stateResponse) (vw : player) :
  get_state haversine nowTs sendTs req db = (Some resp, db') ->
  let ps := fst (detect_catches haversine (catchMeters_of (q_catchMeters req))
                   (build_players
                      (load_rows db (toUpperCase (q_room req))))) in
  viewer_of (q_playerId req) ps = Some vw ->
  role vw <> "hunter" ->
  sent_players resp =
    map (fun p => json_view (project haversine (Some vw) p)) ps /\
  forall p, In p ps ->
    let v := json_view (project haversine (Some vw) p) in
    (id p = id vw ->
     map fst v = ["id"; "name"; "role"; "status"; "lat"; "lng"; "lastSeen"] /\
     field "lat" v = Some (json_value (of_coord (lat p))) /\
     field "lng" v = Some (json_value (of_coord (lng p)))) /\
    (id p <> id vw -> role p <> "hunter" ->
     map fst v = ["id"; "name"; "role"; "status"; "lastSeen"]).
Proof.
  intros Hget ps Hvw Hrole. apply get_state_ok in Hget. cbv zeta in Hget.
  fold ps in Hget. destruct Hget as (roomRow & _ & _ & _ & Hviews & _).
  rewrite Hvw in Hviews.
  split.
  - unfold sent_players. rewrite Hviews, map_map. reflexivity.
  - intros p Hp. cbv zeta.
    destruct (detected_coords _ _ _ _ Hp) as [Hlat Hlng].
    apply String.eqb_neq in Hrole. unfold project. rewrite Hrole.
    split.
    + intros Hid. apply String.eqb_eq in Hid. rewrite Hid.
      destruct (lat p), (lng p), (lastSeen p); try contradiction;
        repeat split; reflexivity.
    + intros Hid Hrp. apply String.eqb_neq in Hid, Hrp. rewrite Hid, Hrp.
      destruct (lastSeen p); reflexivity.
Qed.

(** ** The players a response lists *)

Lemma obj_set_fresh (v : player) (ps : list player) :
  ~ In (id v) (map id ps) -> obj_set v ps = (ps ++ [v])%list.
Proof.
  induction ps as [|x t IH]; simpl; intros Hn; [reflexivity|].
  destruct (id x =? id v)%string eqn:E.
  - apply String.eqb_eq in E. exfalso. apply Hn. now left.
  - rewrite IH; [reflexivity|]. intros H. apply Hn. now right.
Qed.

Lemma build_players_distinct_acc (rows : list snapRow) (acc : list player) :
  NoDup (map id acc ++ map r_id rows) ->
  fold_left (fun ps r => obj_set (player_of_row r) ps) rows acc =
  (acc ++ map player_of_row rows)%list.
Proof.
  revert acc. induction rows as [|r rows IH]; intros acc Hnd; simpl.
  - now rewrite app_nil_r.
  - rewrite obj_set_fresh.
    + rewrite IH.
      * now rewrite <- app_assoc.
      * rewrite map_app. simpl. rewrite <- app_assoc. exact Hnd.
    + simpl. intros Hin. apply NoDup_remove_2 in Hnd. apply Hnd.
      apply in_or_app. now left.
Qed.

(** With distinct ids the [players] object is the list of rows. *)
Lemma build_players_distinct (rows : list snapRow) :
  NoDup (map r_id rows) -> build_players rows = map player_of_row rows.
Proof.
  intros Hnd. unfold build_players.
  now rewrite build_players_distinct_acc.
Qed.

Lemma load_rows_ids (db : store) (room : string) :
  map r_id (load_rows db room) =
  map p_id (filter (fun p => (p_room p =? room)%string) (players db)).
Proof.
  unfold load_rows. rewrite map_map. apply map_ext. intros p.
  now destruct (find _ (locations db)).
Qed.

(** X7.  When player ids are distinct, a state response lists exactly the
    players of the requested room, each once, in table order: the ids of
    the views sent are the ids of the player rows whose room is the
    upper-cased room code. *)
Theorem response_lists_room_players
    (haversine : num -> num -> num -> num -> num)
    (nowTs sendTs : Z) (req : stateRequest) (db db' : store)
    (resp : stateResponse) :
  NoDup (map p_id (players db)) ->
  get_state haversine nowTs sendTs req db = (Some resp, db') ->
  map (field "id") (sent_players resp) =
  map (fun p => Some (JStr (p_id p)))
      (filter (fun p => (p_room p =? toUpperCase (q_room req))%string)
              (players db)).
Proof.
  intros Hnd Hget. apply get_state_ok in Hget. cbv zeta in Hget.
  destruct Hget as (roomRow & _ & _ & _ & Hviews & _).
  pose proof (detect_catches_inv haversine (catchMeters_of (q_catchMeters req))
                (build_players (load_rows db (toUpperCase (q_room req)))))
    as (Hfst & _ & _).
  unfold sent_players. rewrite Hviews, Hfst. unfold mark.
  rewrite !map_map.
  rewrite build_players_distinct.
  - unfold load_rows. rewrite !map_map. apply map_ext. intros p.
    rewrite project_id.
    match goal with
    | |- context [marked ?l ?x] =>
        destruct (marked_fields l x) as (-> & _)
    end.
    now destruct (find _ (locations db)).
  - rewrite load_rows_ids. now apply NoDup_map_filter.
Qed.

(** ** What a state request writes *)

Lemma NoDup_map_injective {A B : Type} (f : A -> B) (l : list A) (x y : A) :
  NoDup (map f l) -> In x l -> In y l -> f x = f y -> x = y.
Proof.
  induction l as [|z l IH]; simpl; intros Hnd Hx Hy Hf; [contradiction|].
  inversion Hnd as [|? ? Hz Hl]; subst.
  destruct Hx as [->|Hx], Hy as [->|Hy]; auto.
  - exfalso. apply Hz. rewrite Hf. now apply in_map.
  - exfalso. apply Hz. rewrite <- Hf. now apply in_map.
Qed.

Lemma Forall2_map_self {A : Type} (R : A -> A -> Prop) (f : A -> A)
    (l : list A) :
  (forall x, In x l -> R x (f x)) -> Forall2 R l (map f l).
Proof.
  induction l as [|x l IH]; simpl; intros H; constructor; auto.
Qed.

Lemma load_rows_row (db : store) (room : string) (r : snapRow) :
  In r (load_rows db room) ->
  exists p, In p (players db) /\ p_room p = room /\
            r_id r = p_id p /\ r_role r = p_role p /\
            r_status r = p_status p /\ r_name r = p_name p.
Proof.
  unfold load_rows. intros H. apply in_map_iff in H as (p & <- & Hp).
  apply filter_In in Hp as [Hp Hroom]. apply String.eqb_eq in Hroom.
  exists p. destruct (find _ (locations db)); simpl; auto 10.
Qed.

Lemma status_or_ready_caught (s : option string) :
  status_or_ready s = "caught" <-> s = Some "caught".
Proof.
  unfold status_or_ready. destruct s as [s|].
  - destruct (s =? "")%string eqn:E.
    + apply String.eqb_eq in E. subst. split; discriminate.
    + split; [now intros ->|now intros [= ->]].
  - split; discriminate.
Qed.

(** X8.  A state request changes neither the rooms nor the locations, and
    in the players table it changes nothing but the status of rows it sets
    to 'caught'; with distinct player ids such a row is a runner of the
    requested room that was not yet caught.  When the room is unknown (404)
    the store is left as it was. *)
Theorem state_request_writes
    (haversine : num -> num -> num -> num -> num)
    (nowTs sendTs : Z) (req : stateRequest) (db : store) :
  NoDup (map p_id (players db)) ->
  let db' := snd (get_state haversine nowTs sendTs req db) in
  rooms db' = rooms db /\
  locations db' = locations db /\
  Forall2 (fun p p' =>
             p' = p \/
             (p' = caught_row p /\
              p_room p = toUpperCase (q_room req) /\
              p_role p = "runner" /\
              p_status p <> Some "caught"))
          (players db) (players db') /\
  (fst (get_state haversine nowTs sendTs req db) = None -> db' = db).
Proof.
  intros Hnd. cbv zeta.
  destruct (get_state_store haversine nowTs sendTs req db)
    as (log & -> & Hnone & Hsome).
  destruct (set_caught_frame log db) as [Hr Hl].
  split; [exact Hr|]. split; [exact Hl|]. split.
  - rewrite db_set_caught_players. apply Forall2_map_self.
    intros p Hp.
    destruct (existsb (String.eqb (p_id p)) log) eqn:E; [|now left].
    right. split; [reflexivity|].
    apply existsb_eqb_In in E.
    destruct (fst (get_state haversine nowTs sendTs req db)) eqn:Ef.
    2:{ rewrite Hnone in E by reflexivity. destruct E. }
    rewrite Hsome in E by discriminate.
    pose proof (detect_catches_inv haversine
                  (catchMeters_of (q_catchMeters req))
                  (build_players
                     (load_rows db (toUpperCase (q_room req)))))
      as (_ & _ & Hj).
    destruct (Hj _ E) as (aId & a & b & _ & Hb & _ & _ & _ & Hrb & _ & Hsb
                          & _).
    apply lookup_id in Hb as [Hidb Hinb].
    apply build_players_In in Hinb as (r & Hrin & ->).
    apply load_rows_row in Hrin
      as (p2 & Hp2 & Hroom & Hid & Hrole & Hstatus & _).
    simpl in Hidb, Hrb, Hsb.
    assert (p = p2).
    { apply (NoDup_map_injective p_id (players db)); auto. congruence. }
    subst p2. repeat split; try congruence.
    intros Hc. apply Hsb. rewrite Hstatus. now apply status_or_ready_caught.
  - intros Hf. rewrite (Hnone Hf). reflexivity.
Qed.

(** ** Repeating a state request *)

Lemma filter_map_comm {A : Type} (f : A -> bool) (g : A -> A) (l : list A) :
  filter f (map g l) = map g (filter (fun x => f (g x)) l).
Proof.
  induction l as [|x l IH]; simpl; [reflexivity|].
  destruct (f (g x)); simpl; now rewrite IH.
Qed.

Lemma Forall2_map_both {A B : Type} (R : B -> B -> Prop) (f g : A -> B)
    (l : list A) :
  (forall x, In x l -> R (f x) (g x)) -> Forall2 R (map f l) (map g l).
Proof.
  induction l as [|x l IH]; simpl; intros H; constructor; auto.
Qed.

Lemma obj_set_map (h : player -> player) (v : player) (ps : list player) :
  (forall x, id (h x) = id x) ->
  obj_set (h v) (map h ps) = map h (obj_set v ps).
Proof.
  intros Hid. induction ps as [|x t IH]; simpl; [reflexivity|].
  rewrite !Hid. destruct (id x =? id v)%string; simpl; [reflexivity|].
  now rewrite IH.
Qed.

Lemma build_players_related (h : player -> player)
    (rows rows' : list snapRow) :
  (forall x, id (h x) = id x) ->
  Forall2 (fun r r' => player_of_row r' = h (player_of_row r)) rows rows' ->
  build_players rows' = map h (build_players rows).
Proof.
  intros Hid HF. unfold build_players.
  change (@nil player) with (map h []) at 1.
  generalize (@nil player) as acc.
  induction HF as [|r r' rows rows' Hr _ IH]; intros acc; simpl;
    [reflexivity|].
  rewrite Hr, obj_set_map by exact Hid. apply IH.
Qed.

(** The snapshot read after the writes [log] is the one read before, with
    the written players caught. *)
Lemma build_players_after_writes (log : list string) (db : store)
    (room : string) :
  build_players (load_rows (fold_left db_set_caught log db) room) =
  mark log (build_players (load_rows db room)).
Proof.
  unfold mark. apply build_players_related.
  - intros x. apply marked_fields.
  - unfold load_rows.
    destruct (set_caught_frame log db) as [_ ->].
    rewrite db_set_caught_players, filter_map_comm, map_map.
    assert (Hf : forall p,
               (p_room (if existsb (String.eqb (p_id p)) log
                        then caught_row p else p) =? room)%string
               = (p_room p =? room)%string)
      by (intros p; now destruct (existsb _ log)).
    rewrite (filter_ext _ _ Hf).
    apply Forall2_map_both. intros p _.
    unfold marked, player_of_row.
    destruct (existsb (String.eqb (p_id p)) log) eqn:E; simpl.
    + destruct (find _ (locations db)); simpl; rewrite E; reflexivity.
    + destruct (find _ (locations db)); simpl; rewrite E; reflexivity.
Qed.

(** A second detection pass on the outcome of a first one finds nothing
    to write. *)
Lemma detect_catches_quiet (haversine : num -> num -> num -> num -> num)
    (c : num) (ps0 : list player) :
  detect_catches haversine c (fst (detect_catches haversine c ps0)) =
  (fst (detect_catches haversine c ps0), []).
Proof.
  pose proof (detect_catches_inv haversine c ps0) as (Hfst & _ & _).
  set (st := detect_catches haversine c ps0) in *.
  pose proof (detect_catches_inv haversine c (fst st)) as (Hfst2 & _ & Hj2).
  assert (Hnil : snd (detect_catches haversine c (fst st)) = []).
  { destruct (snd (detect_catches haversine c (fst st))) as [|k l] eqn:E;
      [reflexivity|exfalso].
    destruct (Hj2 k (or_introl eq_refl))
      as (aId & a & b & Ha & Hb & Hne & Hra & Hla & Hrb & Hlb & Hsb & Hd).
    rewrite Hfst, lookup_mark in Ha, Hb.
    destruct (lookup aId ps0) as [a0|] eqn:Ea0; [|discriminate].
    destruct (lookup k ps0) as [b0|] eqn:Eb0; [|discriminate].
    simpl in Ha, Hb. injection Ha as <-. injection Hb as <-.
    destruct (marked_fields (snd st) a0) as (_ & Hr1 & Hl1 & Hg1 & _).
    destruct (marked_fields (snd st) b0) as (_ & Hr2 & Hl2 & Hg2 & _).
    rewrite Hr1 in Hra. rewrite Hl1 in Hla. rewrite Hr2 in Hrb.
    rewrite Hl2 in Hlb. rewrite Hl1, Hg1, Hl2, Hg2 in Hd.
    destruct (lookup_id _ _ _ Eb0) as [Hidb _].
    rewrite marked_status, Hidb in Hsb.
    destruct (detect_catches_settles haversine c ps0 aId k a0 b0)
      as [Hin|Hst]; auto.
    - fold st in Hin. apply existsb_eqb_In in Hin. rewrite Hin in Hsb.
      now apply Hsb.
    - destruct (existsb (String.eqb k) (snd st)); [now apply Hsb|].
      contradiction. }
  rewrite Hnil in Hfst2. rewrite mark_nil in Hfst2.
  destruct (detect_catches haversine c (fst st)) as [ps2 l2].
  simpl in *. now subst.
Qed.

(** X9.  Repeating a state request on the store it left writes nothing
    more and lists the same player views: whatever the new clock values,
    the second response carries the players of the first and the store
    stays as it is. *)
Theorem state_request_repeated
    (haversine : num -> num -> num -> num -> num)
    (n1 s1 n2 s2 : Z) (req : stateRequest) (db db1 : store)
    (r1 : stateResponse) :
  get_state haversine n1 s1 req db = (Some r1, db1) ->
  exists r2,
    get_state haversine n2 s2 req db1 = (Some r2, db1) /\
    res_players r2 = res_players r1 /\
    res_room r2 = res_room r1.
Proof.
  intros Hget. apply get_state_ok in Hget. cbv zeta in Hget.
  destruct Hget as (roomRow & Hroom & Hr & _ & Hviews & Hdb).
  set (room := toUpperCase (q_room req)) in *.
  set (c := catchMeters_of (q_catchMeters req)) in *.
  set (st := detect_catches haversine c (build_players (load_rows db room)))
    in *.
  pose proof (detect_catches_inv haversine c
                (build_players (load_rows db room))) as (Hfst & _ & _).
  fold st in Hfst.
  assert (Hsnap : build_players (load_rows db1 room) = fst st).
  { rewrite Hdb, build_players_after_writes. now rewrite Hfst. }
  assert (Hroom1 : getRoom db1 room = Some roomRow).
  { unfold getRoom. rewrite Hdb.
    destruct (set_caught_frame (snd st) db) as [-> _]. exact Hroom. }
  unfold get_state. fold room c. rewrite Hroom1, Hsnap.
  unfold st at 1. rewrite detect_catches_quiet. fold st.
  eexists. split; [reflexivity|]. simpl. split; [now rewrite Hviews|].
  now rewrite Hr.
Qed.

(** ** A threshold that is not a number *)

Lemma num_le_NaN_right (d : num) : num_le d NaN = false.
Proof. now destruct d. Qed.

(** X10.  When [parseInt] reads no number in the catchMeters parameter the
    threshold is [NaN] and the state request catches nobody: it writes
    nothing, and the views are those of the snapshot as it was read. *)
Theorem nan_threshold_catches_nobody
    (haversine : num -> num -> num -> num -> num)
    (nowTs sendTs : Z) (req : stateRequest) (db db' : store)
    (resp : stateResponse) :
  catchMeters_of (q_catchMeters req) = NaN ->
  get_state haversine nowTs sendTs req db = (Some resp, db') ->
  let ps := build_players (load_rows db (toUpperCase (q_room req))) in
  db' = db /\
  res_players resp =
    map (project haversine (viewer_of (q_playerId req) ps)) ps.
Proof.
  intros Hc Hget ps. apply get_state_ok in Hget. cbv zeta in Hget.
  fold ps in Hget. rewrite Hc in Hget.
  destruct Hget as (roomRow & _ & _ & _ & Hviews & Hdb).
  pose proof (detect_catches_inv haversine NaN ps) as (Hfst & _ & Hj).
  assert (Hnil : snd (detect_catches haversine NaN ps) = []).
  { destruct (snd (detect_catches haversine NaN ps)) as [|k l];
      [reflexivity|exfalso].
    destruct (Hj k (or_introl eq_refl))
      as (aId & a & b & _ & _ & _ & _ & _ & _ & _ & _ & Hd).
    rewrite num_le_NaN_right in Hd. discriminate. }
  rewrite Hnil in Hfst, Hdb. rewrite mark_nil in Hfst.
  rewrite Hfst in Hviews. simpl in Hdb. auto.
Qed.

(** ** Location updates *)

Lemma build_players_keys (rows : list snapRow) (k : string) :
  In k (map id (build_players rows)) <-> In k (map r_id rows).
Proof.
  unfold build_players.
  assert (H : forall acc,
             In k (map id (fold_left
                             (fun ps r => obj_set (player_of_row r) ps)
                             rows acc)) <->
             In k (map id acc) \/ In k (map r_id rows)).
  { induction rows as [|r rows IH]; intros acc; simpl.
    - intuition.
    - rewrite IH, obj_set_keys. simpl. intuition. }
  rewrite H. simpl. intuition.
Qed.

Lemma lookup_of_key (k : string) (ps : list player) :
  In k (map id ps) -> exists p, lookup k ps = Some p.
Proof.
  unfold lookup. induction ps as [|x t IH]; simpl; [intros []|].
  intros [Hx|Ht].
  - rewrite Hx, String.eqb_refl. eauto.
  - destruct (id x =? k)%string; eauto.
Qed.

Lemma post_location_ok (ts : Z) (body : locationBody) (db db' : store) :
  post_location ts body db = (Ok, db') ->
  exists k,
    lb_playerId body = Some k /\
    isFinite (lb_lat body) = true /\ isFinite (lb_lng body) = true /\
    (exists p, In p (players db) /\ p_id p = k) /\
    db' = {| rooms := rooms db;
             players := map (touch_player k ts) (players db);
             locations :=
               upsert_location
                 {| l_playerId := k; l_lat := lb_lat body;
                    l_lng := lb_lng body; l_ts := ts |}
                 (locations db) |}.
Proof.
  unfold post_location.
  destruct (str_falsy (lb_playerId body)) eqn:E1; simpl; [discriminate|].
  destruct (isFinite (lb_lat body)) eqn:E2; simpl; [|discriminate].
  destruct (isFinite (lb_lng body)) eqn:E3; simpl; [|discriminate].
  destruct (lb_playerId body) as [k|]; [|discriminate].
  destruct (find _ (players db)) as [p|] eqn:Ef; [|discriminate].
  intros H. injection H as <-. exists k.
  apply find_some in Ef as [Hp Hk]. apply String.eqb_eq in Hk.
  repeat split; eauto.
Qed.

Lemma isFinite_coord_or_null (c : coord) :
  isFinite c = true -> coord_or_null c = c.
Proof. unfold coord_or_null. destruct c; simpl; intros; congruence. Qed.

(** X11.  After an accepted location update for a player, the snapshot of
    the next state request of that player's room holds the coordinates
    that were sent, and the time of the update as lastSeen and as the
    time of the location. *)
Theorem location_round_trip (ts : Z) (body : locationBody) (db db' : store)
    (k : string) (row : playerRow) :
  post_location ts body db = (Ok, db') ->
  lb_playerId body = Some k ->
  In row (players db) -> p_id row = k ->
  exists p,
    lookup k (build_players (load_rows db' (p_room row))) = Some p /\
    lat p = lb_lat body /\ lng p = lb_lng body /\
    lastSeen p = int_or_null (Some ts) /\ locTs p = int_or_null (Some ts).
Proof.
  intros Hpost Hk Hrow Hid.
  apply post_location_ok in Hpost
    as (k' & Hk' & Hlat & Hlng & _ & ->).
  rewrite Hk in Hk'. injection Hk' as <-.
  set (db' := {| rooms := rooms db;
                 players := map (touch_player k ts) (players db);
                 locations := _ |}).
  assert (Hkey : In k (map r_id (load_rows db' (p_room row)))).
  { rewrite load_rows_ids. apply in_map_iff.
    exists (touch_player k ts row).
    destruct (touch_player_id k ts row) as (Hi & Hr & _).
    split; [congruence|]. apply filter_In. split.
    - simpl. now apply in_map.
    - rewrite Hr. apply String.eqb_refl. }
  apply build_players_keys, lookup_of_key in Hkey as (p & Hp).
  exists p. split; [exact Hp|].
  apply lookup_id in Hp as [Hidp Hin].
  apply build_players_In in Hin as (r & Hr & ->). simpl in Hidp.
  unfold load_rows in Hr. apply in_map_iff in Hr as (q & <- & Hq).
  apply filter_In in Hq as [Hq _]. simpl in Hq.
  apply in_map_iff in Hq as (q0 & <- & Hq0).
  assert (Hq0id : p_id q0 = k).
  { destruct (touch_player_id k ts q0) as (Hi & _).
    destruct (find _ (locations db')); simpl in Hidp; congruence. }
  destruct (touch_player_id k ts q0) as (Hi & _).
  simpl locations. rewrite find_upsert_location. simpl l_playerId.
  rewrite Hi, Hq0id, String.eqb_refl. simpl.
  rewrite !isFinite_coord_or_null by assumption.
  unfold touch_player. apply String.eqb_eq in Hq0id. rewrite Hq0id. simpl.
  auto.
Qed.

(** X12.  A location update never touches the rooms, never changes the id,
    room, name, role or status of a player row, changes the lastSeen of no
    row but the updated player's, and leaves the location of every other
    player as it was.  A body with an absent coordinate, or with a
    coordinate that is not a finite number, is rejected, and a rejected or
    unmatched update leaves the store unchanged. *)
Theorem location_update_frame (ts : Z) (body : locationBody) (db : store) :
  let db' := snd (post_location ts body db) in
  rooms db' = rooms db /\
  Forall2 (fun p p' =>
             p_id p' = p_id p /\ p_room p' = p_room p /\
             p_name p' = p_name p /\ p_role p' = p_role p /\
             p_status p' = p_status p /\
             (p_lastSeen p' = p_lastSeen p \/
              (lb_playerId body = Some (p_id p) /\ p_lastSeen p' = Some ts)))
          (players db) (players db') /\
  (forall k, lb_playerId body <> Some k ->
     find (fun l => (l_playerId l =? k)%string) (locations db') =
     find (fun l => (l_playerId l =? k)%string) (locations db)) /\
  (fst (post_location ts body db) <> Ok -> db' = db) /\
  (isFinite (lb_lat body) = false \/ isFinite (lb_lng body) = false ->
   fst (post_location ts body db) = BadRequest).
Proof.
  cbv zeta. unfold post_location.
  assert (Hsame : Forall2
            (fun p p' =>
               p_id p' = p_id p /\ p_room p' = p_room p /\
               p_name p' = p_name p /\ p_role p' = p_role p /\
               p_status p' = p_status p /\
               (p_lastSeen p' = p_lastSeen p \/
                (lb_playerId body = Some (p_id p) /\
                 p_lastSeen p' = Some ts)))
            (players db) (players db)).
  { rewrite <- (map_id (players db)) at 2.
    apply Forall2_map_self. intros; auto 10. }
  destruct (str_falsy (lb_playerId body)) eqn:E1; simpl.
  { repeat split; auto. }
  destruct (isFinite (lb_lat body)) eqn:E2; simpl.
  2:{ repeat split; auto. }
  destruct (isFinite (lb_lng body)) eqn:E3; simpl.
  2:{ repeat split; auto. }
  destruct (lb_playerId body) as [k|] eqn:Ek; [|discriminate].
  destruct (find _ (players db)) as [p0|] eqn:Ef; simpl.
  2:{ repeat split; auto. intros [H|H]; discriminate. }
  split; [reflexivity|]. split; [|split; [|split]].
  - apply Forall2_map_self. intros p _.
    destruct (touch_player_id k ts p) as (H1 & H2 & H3 & H4 & H5).
    repeat split; auto. unfold touch_player.
    destruct (p_id p =? k)%string eqn:E; [|now left].
    apply String.eqb_eq in E. right. simpl. split; congruence.
  - intros k' Hk'. rewrite find_upsert_location. simpl.
    destruct (k =? k')%string eqn:E; [|reflexivity].
    apply String.eqb_eq in E. congruence.
  - intros H. now contradiction H.
  - intros [H|H]; discriminate.
Qed.

(** ** Joining *)

Lemma substring_short (m : nat) (s : string) :
  (String.length s <= m)%nat -> substring 0 m s = s.
Proof.
  revert s. induction m as [|m IH]; intros s Hs.
  - destruct s; [reflexivity|simpl in Hs; lia].
  - destruct s as [|c s]; simpl; [reflexivity|].
    rewrite IH; [reflexivity|simpl in Hs; lia].
Qed.

Lemma substring_prefix (m : nat) (s : string) :
  prefix (substring 0 m s) s = true.
Proof.
  revert s. induction m as [|m IH]; intros s.
  - destruct s; reflexivity.
  - destruct s as [|c s]; simpl; [reflexivity|].
    destruct (ascii_dec c c) as [_|Hc]; [apply IH|now contradiction Hc].
Qed.

Lemma substring_length_min (m : nat) (s : string) :
  String.length (substring 0 m s) = Nat.min m (String.length s).
Proof.
  revert s. induction m as [|m IH]; intros s.
  - destruct s; reflexivity.
  - destruct s as [|c s]; simpl; [reflexivity|]. now rewrite IH.
Qed.

(** X13.  A successful join adds one player row and changes nothing else:
    the row has the new id, the upper-cased code of an existing room,
    status 'ready', the join time as lastSeen, and role 'runner' exactly
    when the body's role is 'runner' and 'hunter' otherwise.  Its name is,
    for a string name ('Player' when the name is absent or empty), the
    first 40 characters of it: the prefix of length min(40, length); for
    an array name, which must then hold one string, that string, not cut.
    A name with no [slice] method makes the handler throw before the room
    is looked at.  Every outcome other than a success leaves the store
    unchanged. *)
Theorem join_adds_player (newId : string) (ts : Z) (body : joinBody)
    (db : store) :
  (forall i nm rl room db',
      post_join newId ts body db = (Joined i nm rl room, db') ->
      i = newId /\
      room = toUpperCase (str_or (jb_room body) "") /\
      (exists r, In r (rooms db) /\ code r = room) /\
      (rl = "runner" <-> jb_role body = Some "runner") /\
      (rl = "hunter" \/ rl = "runner") /\
      match jb_name body with
      | NameAbsent => nm = "Player"
      | NameStr s =>
          let s' := if (s =? "")%string then "Player" else s in
          prefix nm s' = true /\
          String.length nm = Nat.min 40 (String.length s')
      | NameArr a => a = [nm]
      | NameOther => False
      end /\
      rooms db' = rooms db /\ locations db' = locations db /\
      players db' =
        (players db ++
         [ {| p_id := newId; p_room := room; p_name := nm; p_role := rl;
              p_status := Some "ready"; p_lastSeen := Some ts |} ])%list) /\
  (jb_name body = NameOther ->
   post_join newId ts body db = (JoinError, db)) /\
  ((forall i nm rl room,
       fst (post_join newId ts body db) <> Joined i nm rl room) ->
   snd (post_join newId ts body db) = db).
Proof.
  split; [|split].
  - intros i nm rl room db' H.
    apply post_join_joined in H
      as (-> & Hroom & (sl & Hs & Hb) & -> & _ & (r & Hr) & _ & ->).
    unfold getRoom in Hr. apply find_some in Hr as [Hin Hc].
    apply String.eqb_eq in Hc. simpl.
    split; [reflexivity|]. split; [exact Hroom|].
    split; [eauto|]. split; [|split; [apply join_role_cases|]].
    + unfold join_role. split.
      * destruct (jb_role body) as [s|]; [|discriminate].
        destruct (s =? "runner")%string eqn:E; [|discriminate].
        apply String.eqb_eq in E. now subst.
      * intros ->. reflexivity.
    + split; [|auto].
      destruct (jb_name body) as [|s|a|]; cbn [sliced_name] in Hs.
      * injection Hs as <-. injection Hb as <-. reflexivity.
      * injection Hs as <-. injection Hb as <-. cbv zeta.
        split; [apply substring_prefix|apply substring_length_min].
      * injection Hs as <-.
        destruct a as [|x [|y t]]; simpl in Hb; try discriminate Hb.
        now injection Hb as <-.
      * discriminate Hs.
  - intros Hn. unfold post_join. now rewrite Hn.
  - intros H.
    destruct (post_join_cases newId ts body db)
      as [E|(i & nm & rl & room & db' & E)]; [exact E|].
    exfalso. apply (H i nm rl room). now rewrite E.
Qed.

Lemma obj_set_has (v : player) (ps : list player) : In v (obj_set v ps).
Proof.
  induction ps as [|x t IH]; simpl; [now left|].
  destruct (id x =? id v)%string; simpl; auto.
Qed.

(** X14.  On a store whose locations all belong to players, a player who
    has just joined is listed by the next state request of the room, under
    any spelling of its code, with the id, name and role of the join reply
    and status 'ready'. *)
Theorem join_then_state (haversine : num -> num -> num -> num -> num)
    (newId : string) (ts : Z) (body : joinBody) (db db' : store)
    (i nm rl room : string) (nowTs sendTs : Z) (req : stateRequest) :
  post_join newId ts body db = (Joined i nm rl room, db') ->
  (forall l, In l (locations db) ->
             exists p, In p (players db) /\ p_id p = l_playerId l) ->
  toUpperCase (q_room req) = room ->
  q_playerId req = None ->
  exists resp db'',
    get_state haversine nowTs sendTs req db' = (Some resp, db'') /\
    In [ ("id", JStr i); ("name", JStr nm); ("role", JStr rl);
         ("status", JStr "ready") ] (sent_players resp).
Proof.
  intros Hjoin Href Hroom Hq.
  apply post_join_joined in Hjoin
    as (-> & _ & _ & _ & _ & (r & Hr) & Hfresh & ->).
  set (row := {| p_id := newId; p_room := room; p_name := nm; p_role := rl;
                 p_status := Some "ready"; p_lastSeen := Some ts |}).
  set (db' := {| rooms := rooms db; players := (players db ++ [row])%list;
                 locations := locations db |}).
  set (pnew := {| id := newId; name := nm; role := rl; status := "ready";
                  lastSeen := int_or_null (Some ts); lat := CNull;
                  lng := CNull; locTs := None |}).
  set (c := catchMeters_of (q_catchMeters req)).
  set (ps0 := build_players (load_rows db' room)).
  assert (Hloc : find (fun l => (l_playerId l =? newId)%string)
                      (locations db) = None).
  { destruct (find _ (locations db)) as [l|] eqn:E; [|reflexivity].
    apply find_some in E as [Hl Hk]. apply String.eqb_eq in Hk.
    destruct (Href l Hl) as (p & Hp & Hid).
    exfalso. apply (Hfresh p Hp). congruence. }
  assert (Hin : In pnew ps0).
  { unfold ps0, load_rows, db'. simpl players.
    rewrite filter_app, map_app. simpl filter.
    unfold row at 1. simpl p_room. rewrite String.eqb_refl. simpl map.
    unfold build_players. rewrite fold_left_app. simpl fold_left.
    simpl locations. unfold row. simpl p_id. rewrite Hloc.
    apply obj_set_has. }
  assert (Hlk : lookup newId ps0 = Some pnew).
  { apply (lookup_unique ps0 pnew); [apply build_players_NoDup|exact Hin]. }
  pose proof (detect_catches_inv haversine c ps0) as (Hfst & _ & Hj).
  assert (Hlog : ~ In newId (snd (detect_catches haversine c ps0))).
  { intros Hk. destruct (Hj _ Hk)
      as (aId & a & b & _ & Hb & _ & _ & _ & _ & Hlb & _).
    rewrite Hlk in Hb. injection Hb as <-. discriminate. }
  destruct (get_state haversine nowTs sendTs req db') as [resp db'']
    eqn:Eget.
  unfold get_state in Eget. rewrite Hroom in Eget.
  assert (Hr' : getRoom db' room = Some r) by exact Hr.
  rewrite Hr' in Eget. fold c ps0 in Eget.
  destruct (detect_catches haversine c ps0) as [ps log] eqn:Edet.
  simpl in Hfst, Hlog. injection Eget as <- <-.
  eexists. eexists. split; [reflexivity|].
  unfold sent_players. simpl res_players. rewrite Hq. simpl viewer_of.
  rewrite map_map. apply in_map_iff. exists pnew. split; [reflexivity|].
  rewrite Hfst. unfold mark. apply in_map_iff. exists pnew.
  split; [|exact Hin]. now apply marked_not_in_log.
Qed.

(** ** Leaving *)

(** X15.  A leave with no id is rejected and changes nothing.  A leave
    with a non-empty id fails, and changes nothing, exactly when foreign
    keys are enforced and the id has both a player row and a location row:
    the first DELETE then violates the reference of the location.
    Otherwise it removes that player's row and location and nothing else:
    no row or location with that id is left, the other rows and locations
    stay in order, the rooms are untouched, and no later state response
    lists the id. *)
Theorem leave_removes_player
    (haversine : num -> num -> num -> num -> num) (foreign_keys : bool)
    (playerId : option string) (db : store) :
  (str_falsy playerId = true ->
   post_leave foreign_keys playerId db = (LeaveBadRequest, db)) /\
  (forall k, playerId = Some k -> k <> "" ->
     let blocked :=
       foreign_keys
       && existsb (fun p => (p_id p =? k)%string) (players db)
       && existsb (fun l => (l_playerId l =? k)%string) (locations db) in
     let db' := snd (post_leave foreign_keys playerId db) in
     (blocked = true ->
      post_leave foreign_keys playerId db = (LeaveError, db)) /\
     (blocked = false ->
      fst (post_leave foreign_keys playerId db) = LeaveOk /\
      rooms db' = rooms db /\
      players db' =
        filter (fun p => negb (p_id p =? k)%string) (players db) /\
      locations db' =
        filter (fun l => negb (l_playerId l =? k)%string) (locations db) /\
      (forall p, In p (players db') -> p_id p <> k) /\
      (forall l, In l (locations db') -> l_playerId l <> k) /\
      (forall nowTs sendTs req resp db'' v,
          get_state haversine nowTs sendTs req db' = (Some resp, db'') ->
          In v (sent_players resp) -> field "id" v <> Some (JStr k)))).
Proof.
  split.
  - intros H. unfold post_leave. now rewrite H.
  - intros k -> Hk. cbv zeta. unfold post_leave. simpl str_falsy.
    apply String.eqb_neq in Hk. rewrite Hk.
    split; [intros ->; reflexivity|intros ->]. cbn [fst snd].
    assert (Hp : forall p,
               In p (filter (fun p => negb (p_id p =? k)%string)
                            (players db)) -> p_id p <> k).
    { intros p Hp. apply filter_In in Hp as [_ Hp].
      apply negb_true_iff in Hp. now apply String.eqb_neq. }
    repeat split; auto.
    + intros l Hl. apply filter_In in Hl as [_ Hl].
      apply negb_true_iff in Hl. now apply String.eqb_neq.
    + intros nowTs sendTs req resp db'' v Hget Hv Hid.
      apply get_state_ok in Hget. cbv zeta in Hget.
      destruct Hget as (roomRow & _ & _ & _ & Hviews & _).
      unfold sent_players in Hv. rewrite Hviews in Hv.
      apply in_map_iff in Hv as (w & <- & Hw).
      apply in_map_iff in Hw as (p' & <- & Hp').
      match type of Hp' with
      | In _ (fst (detect_catches ?h ?c ?ps)) =>
          pose proof (detect_catches_inv h c ps) as (Hfst & _ & _)
      end.
      rewrite Hfst in Hp'. unfold mark in Hp'.
      apply in_map_iff in Hp' as (p & <- & Hin).
      rewrite project_id in Hid.
      match type of Hid with
      | context [marked ?l ?x] =>
          destruct (marked_fields l x) as (Hidp & _)
      end.
      rewrite Hidp in Hid. injection Hid as Hid.
      apply build_players_In in Hin as (r & Hr & ->).
      apply load_rows_row in Hr as (q & Hq & _ & Hrid & _).
      simpl in Hid, Hq. apply (Hp q Hq). congruence.
Qed.

(** ** Starting a room *)

Lemma find_map_start (c : string) (nowTs : Z) (l : list roomRow) :
  find (fun r => (code r =? c)%string) (map (start_room c nowTs) l) =
  option_map (start_room c nowTs) (find (fun r => (code r =? c)%string) l).
Proof.
  induction l as [|r l IH]; simpl; [reflexivity|].
  unfold start_room at 1.
  destruct (code r =? c)%string eqn:E; simpl; rewrite E; [reflexivity|].
  exact IH.
Qed.

Lemma existsb_find_code (c : string) (l : list roomRow) :
  existsb (fun r => (code r =? c)%string) l = true <->
  exists r, find (fun r => (code r =? c)%string) l = Some r.
Proof.
  induction l as [|r l IH]; simpl.
  - split; [discriminate|intros [r H]; discriminate].
  - destruct (code r =? c)%string; simpl; [|exact IH].
    split; eauto.
Qed.

(** X16.  Starting a room is refused with 404, and changes nothing, exactly
    when no room has the upper-cased code.  Otherwise the room keeps its
    configuration and takes the start time: a state request at time [n]
    then answers the radius counted from that start, one shrink step for
    every full shrinkStepSec seconds since it and never below 20, so that
    starting again restarts the shrinking. *)
Theorem start_then_state (haversine : num -> num -> num -> num -> num)
    (t : Z) (c : string) (db : store) :
  (getRoom db (toUpperCase c) = None ->
   post_start t c db = (NotFound, db)) /\
  (forall r0, getRoom db (toUpperCase c) = Some r0 ->
     fst (post_start t c db) = Ok /\
     players (snd (post_start t c db)) = players db /\
     locations (snd (post_start t c db)) = locations db /\
     forall n sendTs req resp db'',
       toUpperCase (q_room req) = toUpperCase c ->
       t <> 0 ->
       get_state haversine n sendTs req (snd (post_start t c db))
       = (Some resp, db'') ->
       startedAt (res_room resp) = Some t /\
       startRadius (res_room resp) = startRadius r0 /\
       shrinkStepSec (res_room resp) = shrinkStepSec r0 /\
       shrinkAmount (res_room resp) = shrinkAmount r0 /\
       res_zoneRadius resp =
         Z.max 20
           (int_or (startRadius r0) 800
            - (n - t) / (Z.max 1 (int_num (shrinkStepSec r0)) * 1000)
              * int_or (shrinkAmount r0) 50)).
Proof.
  unfold getRoom, post_start. split.
  - intros Hnone.
    destruct (existsb _ (rooms db)) eqn:E; [|reflexivity].
    apply existsb_find_code in E as [r Hr]. congruence.
  - intros r0 Hr0.
    assert (E : existsb (fun r => (code r =? toUpperCase c)%string)
                        (rooms db) = true)
      by (apply existsb_find_code; eauto).
    rewrite E. simpl.
    split; [reflexivity|]. split; [reflexivity|]. split; [reflexivity|].
    intros n sendTs req resp db'' Hroom Ht Hget.
    apply get_state_ok in Hget. cbv zeta in Hget.
    destruct Hget as (roomRow & Hfind & -> & -> & _).
    unfold getRoom in Hfind. simpl in Hfind.
    rewrite Hroom, find_map_start, Hr0 in Hfind. simpl in Hfind.
    injection Hfind as <-.
    pose proof Hr0 as Hc. apply find_some in Hc as [_ Hc].
    unfold zone_radius, start_room. rewrite Hc.
    cbn [startedAt startRadius shrinkStepSec shrinkAmount code].
    apply Z.eqb_neq in Ht. rewrite Ht. auto.
Qed.

(** ** Room codes *)

Lemma upper_ascii_idempotent (c : ascii) :
  upper_ascii (upper_ascii c) = upper_ascii c.
Proof. destruct c as [[] [] [] [] [] [] [] []]; reflexivity. Qed.

Lemma toUpperCase_idempotent (s : string) :
  toUpperCase (toUpperCase s) = toUpperCase s.
Proof.
  induction s as [|c s IH]; simpl; [reflexivity|].
  now rewrite upper_ascii_idempotent, IH.
Qed.

Lemma toUpperCase_empty (s : string) : toUpperCase s = "" <-> s = "".
Proof. destruct s; simpl; split; congruence. Qed.

(** X17.  Room codes are read without regard to the case of ASCII
    letters: a state request, a start and a join give the same reply and
    the same store for a code and for its upper-cased spelling. *)
Theorem room_code_case (haversine : num -> num -> num -> num -> num)
    (s : string) (db : store) :
  (forall nowTs sendTs viewer cm,
      get_state haversine nowTs sendTs
        {| q_room := toUpperCase s; q_playerId := viewer;
           q_catchMeters := cm |} db =
      get_state haversine nowTs sendTs
        {| q_room := s; q_playerId := viewer; q_catchMeters := cm |} db) /\
  (forall nowTs, post_start nowTs (toUpperCase s) db = post_start nowTs s db)
  /\
  (forall newId ts nm rl,
      post_join newId ts
        {| jb_room := Some (toUpperCase s); jb_name := nm; jb_role := rl |} db
      = post_join newId ts
          {| jb_room := Some s; jb_name := nm; jb_role := rl |} db).
Proof.
  split; [|split].
  - intros. unfold get_state. simpl. now rewrite toUpperCase_idempotent.
  - intros. unfold post_start. now rewrite toUpperCase_idempotent.
  - intros. unfold post_join. simpl.
    assert (H : toUpperCase (if (toUpperCase s =? "")%string
                             then "" else toUpperCase s) =
                toUpperCase (if (s =? "")%string then "" else s)).
    { destruct (s =? "")%string eqn:E.
      - apply String.eqb_eq in E. subst. reflexivity.
      - destruct (toUpperCase s =? "")%string eqn:E2.
        + apply String.eqb_eq in E2.
          apply (proj1 (toUpperCase_empty s)) in E2.
          apply String.eqb_neq in E. now contradiction E.
        + apply toUpperCase_idempotent. }
    now rewrite H.
Qed.

(** ** Creating a room with integers *)










Lemma find_app_none {A : Type} (f : A -> bool) (l : list A) (x : A) :
  find f l = None -> find f (l ++ [x]) = if f x then Some x else None.
Proof.
  induction l as [|y l IH]; simpl; [reflexivity|].
  destruct (f y); [discriminate|exact IH].
Qed.

(** X19.  A room created under a code that was free answers state requests
    at once: the response carries the new row, not started, and its
    zoneRadius is the stored startRadius (800 when the field was not
    numeric), between 20 and 100000, whatever the clock says. *)
Theorem create_then_state (haversine : num -> num -> num -> num -> num)
    (newCode : string) (body : roomBody) (db : store)
    (nowTs sendTs : Z) (req : stateRequest) :
  getRoom db newCode = None ->
  toUpperCase (q_room req) = newCode ->
  exists resp db'',
    get_state haversine nowTs sendTs req (snd (post_rooms newCode body db))
    = (Some resp, db'') /\
    code (res_room resp) = newCode /\
    startedAt (res_room resp) = None /\
    startRadius (res_room resp) =
      sql_integer (cfg_startRadius (fst (post_rooms newCode body db))) /\
    res_zoneRadius resp = int_or (startRadius (res_room resp)) 800 /\
    20 <= res_zoneRadius resp <= 100000.
Proof.
  intros Hfree Hroom.
  destruct (room_creation_range body) as (HR & _ & _).
  apply (sql_integer_range 20 100000) in HR.
  unfold post_rooms. cbn [fst snd].
  set (cfg := room_config body) in *.
  set (row := {| code := newCode;
                 startRadius := sql_integer (cfg_startRadius cfg);
                 shrinkStepSec := sql_integer (cfg_shrinkStepSec cfg);
                 shrinkAmount := sql_integer (cfg_shrinkAmount cfg);
                 startedAt := None |}).
  set (db1 := {| rooms := (rooms db ++ [row])%list; players := players db;
                 locations := locations db |}).
  assert (Hfind : getRoom db1 newCode = Some row).
  { unfold getRoom, db1. cbn [rooms].
    rewrite find_app_none by exact Hfree.
    unfold row at 1. cbn [code]. now rewrite String.eqb_refl. }
  unfold get_state. rewrite Hroom, Hfind.
  destruct (detect_catches _ _ _) as [ps log].
  eexists. eexists. split; [reflexivity|].
  cbn [res_room res_zoneRadius].
  assert (Hz : zone_radius row nowTs =
               int_or (sql_integer (cfg_startRadius cfg)) 800)
    by reflexivity.
  split; [reflexivity|]. split; [reflexivity|]. split; [reflexivity|].
  split; [exact Hz|]. rewrite Hz.
  destruct HR as [->|(z & -> & Hz')]; simpl; [lia|].
  destruct (z =? 0); lia.
Qed.

(** ** What no request undoes *)

Lemma handle_keeps_caught (haversine : num -> num -> num -> num -> num)
    (foreign_keys : bool) (k : string) (r : request) (db : store) :
  (forall ts body, r <> Join k ts body) ->
  (forall p, In p (players db) -> p_id p = k ->
             p_status p = Some "caught") ->
  forall p, In p (players (handle haversine foreign_keys r db)) ->
            p_id p = k ->
            p_status p = Some "caught".
Proof.
  intros Hr HQ. destruct r as [c b|t c|newId ts body|pid|ts body|n s req];
    simpl.
  - unfold insert_room. destruct (existsb _ (rooms db)); exact HQ.
  - unfold post_start. destruct (existsb _ (rooms db)); exact HQ.
  - destruct (post_join_cases newId ts body db)
      as [->|(i & nm & rl & room & db' & E)]; [exact HQ|].
    rewrite E. simpl.
    apply post_join_joined in E as (_ & _ & _ & _ & _ & _ & _ & ->).
    simpl. intros p Hp Hid. apply in_app_or in Hp as [Hp|[<-|[]]];
      [now apply HQ|].
    simpl in Hid. subst newId. exfalso. now apply (Hr ts body).
  - unfold post_leave. destruct (str_falsy pid); [exact HQ|].
    destruct pid as [k'|]; [|exact HQ].
    destruct (foreign_keys && _ && _); [exact HQ|]. cbn [snd players].
    intros p Hp. apply filter_In in Hp as [Hp _]. now apply HQ.
  - unfold post_location.
    destruct (str_falsy (lb_playerId body) || _ || _); [exact HQ|].
    destruct (lb_playerId body) as [k'|]; [|exact HQ].
    destruct (find _ (players db)) as [q0|]; [|exact HQ]. simpl.
    intros p' Hp' Hid. apply in_map_iff in Hp' as (p & <- & Hp).
    destruct (touch_player_id k' ts p) as (Hi & _ & _ & _ & ->).
    apply HQ; congruence.
  - destruct (get_state_store haversine n s req db) as (log & -> & _).
    rewrite db_set_caught_players.
    intros p' Hp' Hid. apply in_map_iff in Hp' as (p & <- & Hp).
    destruct (existsb _ log); [reflexivity|now apply HQ].
Qed.

(** X20.  No request takes a player back from 'caught': when every row of
    an id has status 'caught', every row of that id still has it after any
    sequence of requests in which no join creates that id anew. *)
Theorem caught_is_permanent (haversine : num -> num -> num -> num -> num)
    (foreign_keys : bool) (k : string) (rs : list request) (db : store) :
  (forall r ts body, In r rs -> r <> Join k ts body) ->
  (forall p, In p (players db) -> p_id p = k ->
             p_status p = Some "caught") ->
  forall p, In p (players (run haversine foreign_keys rs db)) ->
            p_id p = k ->
            p_status p = Some "caught".
Proof.
  intros Hrs HQ. unfold run.
  apply (fold_left_invariant
           (fun d => forall p, In p (players d) -> p_id p = k ->
                               p_status p = Some "caught")); [|exact HQ].
  intros d r Hr Hd. apply handle_keeps_caught; [|exact Hd].
  intros ts body. now apply Hrs.
Qed.

Lemma handle_keeps_room (haversine : num -> num -> num -> num -> num)
    (foreign_keys : bool) (r : request) (db : store) (x : roomRow) :
  In x (rooms db) ->
  exists x', In x' (rooms (handle haversine foreign_keys r db)) /\
             code x' = code x /\ startRadius x' = startRadius x /\
             shrinkStepSec x' = shrinkStepSec x /\
             shrinkAmount x' = shrinkAmount x.
Proof.
  intros Hx. destruct r as [c b|t c|newId ts body|pid|ts body|n s req];
    simpl.
  - exists x. split; [|auto]. unfold insert_room.
    destruct (existsb _ (rooms db)); [exact Hx|].
    cbn [snd post_rooms rooms]. apply in_or_app. now left.
  - unfold post_start. destruct (existsb _ (rooms db)); simpl.
    + exists (start_room (toUpperCase c) t x).
      split; [now apply in_map|].
      unfold start_room. destruct (code x =? toUpperCase c)%string; auto.
    + exists x. auto.
  - exists x. split; [|auto].
    destruct (post_join_cases newId ts body db)
      as [->|(i & nm & rl & room & db' & E)]; [exact Hx|].
    rewrite E. cbn [snd].
    apply post_join_joined in E as (_ & _ & _ & _ & _ & _ & _ & ->).
    exact Hx.
  - exists x. split; [|auto]. unfold post_leave.
    destruct (str_falsy pid); [exact Hx|].
    destruct pid; [|exact Hx].
    destruct (foreign_keys && _ && _); exact Hx.
  - exists x. split; [|auto]. unfold post_location.
    destruct (str_falsy (lb_playerId body) || _ || _); [exact Hx|].
    destruct (lb_playerId body); [|exact Hx].
    destruct (find _ (players db)); exact Hx.
  - exists x. split; [|auto].
    destruct (get_state_store haversine n s req db) as (log & -> & _).
    destruct (set_caught_frame log db) as [-> _]. exact Hx.
Qed.

(** X21.  No request deletes a room or changes its configuration: a room
    row of a store is still there, with the same code, startRadius,
    shrinkStepSec and shrinkAmount, after any sequence of requests. *)
Theorem rooms_persist (haversine : num -> num -> num -> num -> num)
    (foreign_keys : bool) (rs : list request) (db : store) (x : roomRow) :
  In x (rooms db) ->
  exists x', In x' (rooms (run haversine foreign_keys rs db)) /\
             code x' = code x /\ startRadius x' = startRadius x /\
             shrinkStepSec x' = shrinkStepSec x /\
             shrinkAmount x' = shrinkAmount x.
Proof.
  intros Hx. unfold run.
  apply (fold_left_invariant
           (fun d => exists x', In x' (rooms d) /\
                      code x' = code x /\ startRadius x' = startRadius x /\
                      shrinkStepSec x' = shrinkStepSec x /\
                      shrinkAmount x' = shrinkAmount x)).
  - intros d r _ (y & Hy & H1 & H2 & H3 & H4).
    destruct (handle_keeps_room haversine foreign_keys r d y Hy)
      as (y' & Hy' & G1 & G2 & G3 & G4).
    exists y'. repeat split; congruence.
  - exists x. auto.
Qed.

(** ** The nearest opponent *)

Lemma num_lt_chain (d2 d1 dq : num) :
  num_lt d2 d1 = true -> num_lt dq d1 = false -> num_lt dq d2 = false.
Proof.
  destruct d2 as [| | |x2], d1 as [| | |x1], dq as [| | |xq]; simpl;
    try congruence.
  intros H1 H2. apply negb_true_iff in H1. apply negb_false_iff in H2.
  apply negb_false_iff. apply Qle_bool_iff. apply Qle_bool_iff in H2.
  apply Qle_bool_false in H1. now apply Qle_trans with x1.
Qed.

Lemma num_lt_irrefl (d : num) : num_lt d d = false.
Proof.
  destruct d as [| | |x]; simpl; try reflexivity.
  apply negb_false_iff, Qle_bool_iff, Qle_refl.
Qed.

(** X22.  The nearest opponent computed for a player [p] is [None] with
    distance Infinity, or the id of another entry of opposite role whose
    lat and lng are not null, with the distance from [p] to it; and no
    entry of opposite role with lat and lng is strictly nearer. *)
Theorem nearest_opponent (haversine : num -> num -> num -> num -> num)
    (ps : list player) (p : player) :
  match fst (nearestOpp haversine ps p) with
  | Some k =>
      exists q, In q ps /\ id q = k /\ id q <> id p /\ role q <> role p /\
                is_null (lat q) = false /\ is_null (lng q) = false /\
                snd (nearestOpp haversine ps p) =
                  distMeters haversine (lat p) (lng p) (lat q) (lng q)
  | None => snd (nearestOpp haversine ps p) = PInf
  end /\
  forall q, In q ps -> id q <> id p -> role q <> role p ->
    is_null (lat q) = false -> is_null (lng q) = false ->
    num_lt (distMeters haversine (lat p) (lng p) (lat q) (lng q))
           (snd (nearestOpp haversine ps p)) = false.
Proof.
  unfold nearestOpp.
  set (step := fun (best : option string * num) (q : player) =>
         if (id p =? id q)%string then best
         else if is_null (lat q) || is_null (lng q) then best
         else if (role p =? role q)%string then best
         else
           if num_lt (distMeters haversine (lat p) (lng p) (lat q) (lng q))
                     (snd best)
           then (Some (id q),
                 distMeters haversine (lat p) (lng p) (lat q) (lng q))
           else best).
  assert (H : forall done rest best,
             (match fst best with
              | Some k =>
                  exists q, In q done /\ id q = k /\ id q <> id p /\
                            role q <> role p /\
                            is_null (lat q) = false /\
                            is_null (lng q) = false /\
                            snd best =
                              distMeters haversine (lat p) (lng p)
                                         (lat q) (lng q)
              | None => snd best = PInf
              end /\
              forall q, In q done -> id q <> id p -> role q <> role p ->
                is_null (lat q) = false -> is_null (lng q) = false ->
                num_lt (distMeters haversine (lat p) (lng p) (lat q) (lng q))
                       (snd best) = false) ->
             let out := fold_left step rest best in
             match fst out with
             | Some k =>
                 exists q, In q (done ++ rest) /\ id q = k /\
                           id q <> id p /\ role q <> role p /\
                           is_null (lat q) = false /\
                           is_null (lng q) = false /\
                           snd out =
                             distMeters haversine (lat p) (lng p)
                                        (lat q) (lng q)
             | None => snd out = PInf
             end /\
             forall q, In q (done ++ rest) -> id q <> id p ->
               role q <> role p ->
               is_null (lat q) = false -> is_null (lng q) = false ->
               num_lt (distMeters haversine (lat p) (lng p) (lat q) (lng q))
                      (snd out) = false).
  { intros done rest. revert done.
    induction rest as [|x rest IH]; intros done best Hb; cbv zeta.
    - simpl. now rewrite app_nil_r.
    - simpl fold_left.
      replace (done ++ x :: rest)%list with ((done ++ [x]) ++ rest)%list
        by (rewrite <- app_assoc; reflexivity).
      apply IH. destruct Hb as [Hbest Hmin].
      assert (Hkeep :
                (forall q, In q [x] -> id q <> id p -> role q <> role p ->
                   is_null (lat q) = false -> is_null (lng q) = false ->
                   False) ->
                match fst best with
                | Some k =>
                    exists q, In q (done ++ [x]) /\ id q = k /\
                              id q <> id p /\ role q <> role p /\
                              is_null (lat q) = false /\
                              is_null (lng q) = false /\
                              snd best =
                                distMeters haversine (lat p) (lng p)
                                           (lat q) (lng q)
                | None => snd best = PInf
                end /\
                forall q, In q (done ++ [x]) -> id q <> id p ->
                  role q <> role p ->
                  is_null (lat q) = false -> is_null (lng q) = false ->
                  num_lt (distMeters haversine (lat p) (lng p)
                                     (lat q) (lng q))
                         (snd best) = false).
      { intros Hx. split.
        - destruct (fst best); [|exact Hbest].
          destruct Hbest as (q & Hq & Hrest). exists q.
          split; [apply in_or_app; now left|exact Hrest].
        - intros q Hq. apply in_app_or in Hq as [Hq|Hq]; [now apply Hmin|].
          intros. exfalso. eapply Hx; eauto. }
      unfold step.
      destruct (id p =? id x)%string eqn:E1.
      { apply Hkeep. intros q [<-|[]] Hid. apply String.eqb_eq in E1.
        congruence. }
      destruct (is_null (lat x) || is_null (lng x)) eqn:E2.
      { apply Hkeep. intros q [<-|[]] _ _ Hl1 Hl2.
        rewrite Hl1, Hl2 in E2. discriminate. }
      destruct (role p =? role x)%string eqn:E3.
      { apply Hkeep. intros q [<-|[]] _ Hr. apply String.eqb_eq in E3.
        congruence. }
      apply String.eqb_neq in E1, E3. apply orb_false_iff in E2 as [E2 E2'].
      destruct (num_lt _ (snd best)) eqn:E4.
      + split.
        * simpl. exists x. repeat split; auto.
          apply in_or_app. right. now left.
        * simpl. intros q Hq Hid Hr Hl1 Hl2.
          apply in_app_or in Hq as [Hq|[<-|[]]].
          -- eapply num_lt_chain; [exact E4|]. now apply Hmin.
          -- apply num_lt_irrefl.
      + split.
        * destruct (fst best); [|exact Hbest].
          destruct Hbest as (q & Hq & Hrest). exists q.
          split; [apply in_or_app; now left|exact Hrest].
        * intros q Hq Hid Hr Hl1 Hl2.
          apply in_app_or in Hq as [Hq|[<-|[]]]; [now apply Hmin|exact E4]. }
  specialize (H [] ps (None, PInf)). cbv zeta in H. simpl app in H.
  apply H. split; [reflexivity|]. intros q [].
Qed.

(** ** Leaving under enforced foreign keys *)

Lemma existsb_key_In {A : Type} (f : A -> string) (k : string) (l : list A) :
  existsb (fun x => (f x =? k)%string) l = true <-> In k (map f l).
Proof.
  rewrite existsb_exists, in_map_iff. split.
  - intros (x & Hx & E). apply String.eqb_eq in E. eauto.
  - intros (x & E & Hx). exists x. split; [exact Hx|].
    now apply String.eqb_eq.
Qed.

Lemma In_map_filter_other {A : Type} (f : A -> string) (k k' : string)
    (l : list A) :
  k <> k' -> In k (map f l) ->
  In k (map f (filter (fun x => negb (f x =? k')%string) l)).
Proof.
  intros Hk Hin. apply in_map_iff in Hin as (x & E & Hx).
  apply in_map_iff. exists x. split; [exact E|].
  apply filter_In. split; [exact Hx|].
  apply negb_true_iff, String.eqb_neq. congruence.
Qed.

Lemma handle_keeps_located (haversine : num -> num -> num -> num -> num)
    (k : string) (r : request) (db : store) :
  In k (map p_id (players db)) /\ In k (map l_playerId (locations db)) ->
  In k (map p_id (players (handle haversine true r db))) /\
  In k (map l_playerId (locations (handle haversine true r db))).
Proof.
  intros [Hp Hl]. destruct r as [c b|t c|newId ts body|pid|ts body|n s req];
    simpl.
  - unfold insert_room. destruct (existsb _ (rooms db)); simpl; auto.
  - unfold post_start. destruct (existsb _ (rooms db)); simpl; auto.
  - destruct (post_join_cases newId ts body db)
      as [->|(i & nm & rl & room & db' & E)]; [auto|].
    rewrite E. cbn [snd].
    apply post_join_joined in E as (_ & _ & _ & _ & _ & _ & _ & ->).
    simpl. split; [|exact Hl]. rewrite map_app. apply in_or_app. now left.
  - unfold post_leave. destruct (str_falsy pid); [auto|].
    destruct pid as [k'|]; [|auto]. cbn [andb].
    destruct (String.eqb_spec k k') as [<-|Hk].
    + rewrite (proj2 (existsb_key_In p_id k (players db)) Hp).
      rewrite (proj2 (existsb_key_In l_playerId k (locations db)) Hl).
      simpl. auto.
    + destruct (existsb _ (players db) && existsb _ (locations db));
        [auto|]. cbn [snd players locations].
      split; now apply In_map_filter_other.
  - unfold post_location.
    destruct (str_falsy (lb_playerId body) || _ || _); [auto|].
    destruct (lb_playerId body) as [k'|]; [|auto].
    destruct (find _ (players db)); [|auto]. cbn [snd players locations].
    split; [now rewrite map_id_touch|].
    apply upsert_location_keys. now right.
  - destruct (get_state_store haversine n s req db) as (log & -> & _).
    destruct (set_caught_frame log db) as [_ ->].
    rewrite db_set_caught_players, map_id_caught. auto.
Qed.

(** X23.  When the database enforces foreign keys, a player who has a
    location row can no longer leave: whatever requests follow, the player
    row and the location row of that id are still in the store. *)
Theorem located_player_stays (haversine : num -> num -> num -> num -> num)
    (k : string) (rs : list request) (db : store) :
  In k (map p_id (players db)) ->
  In k (map l_playerId (locations db)) ->
  In k (map p_id (players (run haversine true rs db))) /\
  In k (map l_playerId (locations (run haversine true rs db))).
Proof.
  intros Hp Hl. unfold run.
  apply (fold_left_invariant
           (fun d => In k (map p_id (players d)) /\
                     In k (map l_playerId (locations d)))); [|auto].
  intros d r _ Hd. now apply handle_keeps_located.
Qed.

(** ** Worked examples for the further properties *)

Lemma sample_store_distinct : NoDup (map p_id (players sample_store)).
Proof.
  simpl. repeat constructor; simpl; intuition discriminate.
Qed.

Lemma sample_store_references (l : locationRow) :
  In l (locations sample_store) ->
  exists p, In p (players sample_store) /\ p_id p = l_playerId l.
Proof.
  intros [<-|[<-|[<-|[]]]].
  - exists (sample_player "h1" "Ann" "hunter"). simpl. auto.
  - exists (sample_player "r1" "Bob" "runner"). simpl. auto.
  - exists (sample_player "r2" "Cid" "runner"). simpl. auto 6.
Qed.

(** A room is created and a runner joins it under a string name: the row
    of the runner is well formed. *)
Lemma reachable_player_columns_witness :
  let row := {| p_id := "p1"; p_room := "ROOM01"; p_name := "Ann";
                p_role := "runner"; p_status := Some "ready";
                p_lastSeen := Some 1000 |} in
  (p_role row = "hunter" \/ p_role row = "runner") /\
  (p_status row = Some "ready" \/ p_status row = Some "caught") /\
  (String.length (p_name row) <= 40)%nat.
Proof.
  cbv zeta.
  destruct (reachable_player_columns grid_distance true
              [ CreateRoom "ROOM01"
                  {| b_startRadius := RInt 800; b_shrinkStepSec := RInt 20;
                     b_shrinkAmount := RInt 50 |};
                Join "p1" 1000
                  {| jb_room := Some "room01"; jb_name := NameStr "Ann";
                     jb_role := Some "runner" |} ]
              {| p_id := "p1"; p_room := "ROOM01"; p_name := "Ann";
                 p_role := "runner"; p_status := Some "ready";
                 p_lastSeen := Some 1000 |})
    as (Hrole & Hstatus & Hname).
  - vm_compute. now left.
  - split; [exact Hrole|]. split; [exact Hstatus|].
    apply Hname. intros newId ts body a [H|[H|[]]]; [discriminate H|].
    injection H as _ _ <-. discriminate.
Defined.

(** A room is created and started at time 1000. *)
Lemma reachable_zone_radius_witness :
  let r := {| code := "ROOM01"; startRadius := Some 800;
              shrinkStepSec := Some 20; shrinkAmount := Some 50;
              startedAt := Some 1000 |} in
  20 <= zone_radius r 46000 /\ zone_radius r 46000 <= 100000 /\
  zone_radius r 66000 <= zone_radius r 46000.
Proof.
  cbv zeta.
  destruct (reachable_zone_radius grid_distance true
              [ CreateRoom "ROOM01"
                  {| b_startRadius := RInt 800; b_shrinkStepSec := RInt 20;
                     b_shrinkAmount := RInt 50 |};
                StartRoom 1000 "room01" ]
              {| code := "ROOM01"; startRadius := Some 800;
                 shrinkStepSec := Some 20; shrinkAmount := Some 50;
                 startedAt := Some 1000 |})
    as (Hlow & Hhigh & Hmono).
  - vm_compute. now left.
  - split; [apply Hlow|]. split.
    + apply Hhigh. intros t Ht. injection Ht as <-. lia.
    + apply Hmono. lia.
Defined.


(** On the sample store, seen by the runner r2: its own view carries its
    coordinates, the view of the runner r1 carries none. *)
Lemma runner_sees_self_and_runners_witness :
  match get_state grid_distance 46000 46001 (sample_request (Some "r2"))
          sample_store with
  | (Some resp, _) =>
      In [ ("id", JStr "r2"); ("name", JStr "Cid"); ("role", JStr "runner");
           ("status", JStr "ready");
           ("lat", JNum (num_of_Z 11)); ("lng", JNum (num_of_Z 10));
           ("lastSeen", JNum (num_of_Z 1000)) ] (sent_players resp) /\
      In [ ("id", JStr "r1"); ("name", JStr "Bob"); ("role", JStr "runner");
           ("status", JStr "caught");
           ("lastSeen", JNum (num_of_Z 1000)) ] (sent_players resp)
  | (None, _) => False
  end.
Proof.
  destruct (get_state grid_distance 46000 46001 (sample_request (Some "r2"))
              sample_store) as [[resp|] db'] eqn:E;
    [|vm_compute in E; discriminate E].
  destruct (runner_sees_self_and_runners grid_distance 46000 46001
              (sample_request (Some "r2")) sample_store db' resp
              {| id := "r2"; name := "Cid"; role := "runner";
                 status := "ready"; lastSeen := Some 1000;
                 lat := CNum (num_of_Z 11); lng := CNum (num_of_Z 10);
                 locTs := Some 1000 |}
              E eq_refl ltac:(discriminate)) as [Hsent _].
  rewrite Hsent. vm_compute. split.
  - right. right. now left.
  - right. now left.
Defined.

(** On the sample store the response lists h1, r1, r2, h2. *)
Lemma response_lists_room_players_witness :
  match get_state grid_distance 46000 46001 (sample_request None)
          sample_store with
  | (Some resp, _) =>
      map (field "id") (sent_players resp) =
      [ Some (JStr "h1"); Some (JStr "r1"); Some (JStr "r2");
        Some (JStr "h2") ]
  | (None, _) => False
  end.
Proof.
  destruct (get_state grid_distance 46000 46001 (sample_request None)
              sample_store) as [[resp|] db'] eqn:E;
    [|vm_compute in E; discriminate E].
  rewrite (response_lists_room_players grid_distance 46000 46001
             (sample_request None) sample_store db' resp
             sample_store_distinct E).
  reflexivity.
Defined.

(** On the sample store the request leaves rooms and locations alone. *)
Lemma state_request_writes_witness :
  rooms (snd (get_state grid_distance 46000 46001 (sample_request None)
                sample_store)) = rooms sample_store /\
  locations (snd (get_state grid_distance 46000 46001 (sample_request None)
                    sample_store)) = locations sample_store.
Proof.
  destruct (state_request_writes grid_distance 46000 46001
              (sample_request None) sample_store sample_store_distinct)
    as (Hr & Hl & _).
  split; assumption.
Defined.

(** On the sample store a second request, twenty seconds later, changes
    nothing more. *)
Lemma state_request_repeated_witness :
  match get_state grid_distance 46000 46001 (sample_request None)
          sample_store with
  | (Some r1, db1) =>
      exists r2,
        get_state grid_distance 66000 66001 (sample_request None) db1
        = (Some r2, db1) /\
        res_players r2 = res_players r1 /\ res_room r2 = res_room r1
  | (None, _) => False
  end.
Proof.
  destruct (get_state grid_distance 46000 46001 (sample_request None)
              sample_store) as [[r1|] db1] eqn:E;
    [|vm_compute in E; discriminate E].
  apply (state_request_repeated grid_distance 46000 46001 66000 66001
           (sample_request None) sample_store db1 r1 E).
Defined.

(** On the sample store with the parameter "abc" the runner r1, on the
    spot of the hunter h1, is not caught. *)
Lemma nan_threshold_catches_nobody_witness :
  match get_state grid_distance 46000 46001
          {| q_room := "room01"; q_playerId := None;
             q_catchMeters := Some "abc" |} sample_store with
  | (Some resp, db') => db' = sample_store
  | (None, _) => False
  end.
Proof.
  destruct (get_state grid_distance 46000 46001
              {| q_room := "room01"; q_playerId := None;
                 q_catchMeters := Some "abc" |} sample_store)
    as [[resp|] db'] eqn:E;
    [|vm_compute in E; discriminate E].
  destruct (nan_threshold_catches_nobody grid_distance 46000 46001
              {| q_room := "room01"; q_playerId := None;
                 q_catchMeters := Some "abc" |} sample_store db' resp
              eq_refl E) as [Hdb _].
  exact Hdb.
Defined.

(** The hunter h2 of the sample store sends a first location. *)
Lemma location_round_trip_witness :
  let body := {| lb_playerId := Some "h2"; lb_lat := CNum (num_of_Z 12);
                 lb_lng := CNum (num_of_Z 13) |} in
  exists p,
    lookup "h2"
      (build_players
         (load_rows (snd (post_location 2000 body sample_store)) "ROOM01"))
    = Some p /\
    lat p = CNum (num_of_Z 12) /\ lng p = CNum (num_of_Z 13) /\
    lastSeen p = Some 2000 /\ locTs p = Some 2000.
Proof.
  cbv zeta.
  apply (location_round_trip 2000
           {| lb_playerId := Some "h2"; lb_lat := CNum (num_of_Z 12);
              lb_lng := CNum (num_of_Z 13) |}
           sample_store _ "h2" (sample_player "h2" "Dee" "hunter")).
  - vm_compute. reflexivity.
  - reflexivity.
  - simpl. auto.
  - reflexivity.
Defined.

(** A player joins the sample room under a long name: 40 characters of it
    are stored.  Under the same name in an array, it is stored whole. *)
Lemma join_adds_player_witness :
  let long := "A name that is a good deal longer than forty characters" in
  match post_join "p9" 3000
          {| jb_room := Some "room01"; jb_name := NameStr long;
             jb_role := Some "spectator" |} sample_store with
  | (Joined i nm rl room, db') =>
      i = "p9" /\ rl = "hunter" /\ room = "ROOM01" /\
      String.length nm = 40%nat /\
      locations db' = locations sample_store
  | _ => False
  end /\
  match post_join "p9" 3000
          {| jb_room := Some "room01"; jb_name := NameArr [long];
             jb_role := Some "runner" |} sample_store with
  | (Joined i nm rl room, db') => nm = long
  | _ => False
  end.
Proof.
  cbv zeta. split.
  - destruct (post_join "p9" 3000
                {| jb_room := Some "room01";
                   jb_name :=
                     NameStr
                       "A name that is a good deal longer than forty characters";
                   jb_role := Some "spectator" |} sample_store)
      as [[i nm rl room| | | |] db'] eqn:E;
      try (vm_compute in E; discriminate E).
    destruct (join_adds_player "p9" 3000
                {| jb_room := Some "room01";
                   jb_name :=
                     NameStr
                       "A name that is a good deal longer than forty characters";
                   jb_role := Some "spectator" |} sample_store)
      as [Hok _].
    destruct (Hok i nm rl room db' E)
      as (Hi & Hroom & _ & _ & Hrl & Hname & _ & Hloc & _).
    cbn [jb_name] in Hname. cbv zeta in Hname. destruct Hname as [_ Hlen].
    vm_compute in E. injection E as <- <- <- <- <-.
    repeat split; auto.
  - destruct (post_join "p9" 3000
                {| jb_room := Some "room01";
                   jb_name :=
                     NameArr
                       ["A name that is a good deal longer than forty characters"];
                   jb_role := Some "runner" |} sample_store)
      as [[i nm rl room| | | |] db'] eqn:E;
      try (vm_compute in E; discriminate E).
    destruct (join_adds_player "p9" 3000
                {| jb_room := Some "room01";
                   jb_name :=
                     NameArr
                       ["A name that is a good deal longer than forty characters"];
                   jb_role := Some "runner" |} sample_store)
      as [Hok _].
    destruct (Hok i nm rl room db' E)
      as (_ & _ & _ & _ & _ & Hname & _).
    cbn [jb_name] in Hname. now injection Hname as <-.
Defined.

(** A runner joins the sample room and is listed as ready. *)
Lemma join_then_state_witness :
  exists resp db'',
    get_state grid_distance 46000 46001 (sample_request None)
      (snd (post_join "p9" 3000
              {| jb_room := Some "room01"; jb_name := NameStr "Eve";
                 jb_role := Some "runner" |} sample_store))
    = (Some resp, db'') /\
    In [ ("id", JStr "p9"); ("name", JStr "Eve"); ("role", JStr "runner");
         ("status", JStr "ready") ] (sent_players resp).
Proof.
  apply (join_then_state grid_distance "p9" 3000
           {| jb_room := Some "room01"; jb_name := NameStr "Eve";
              jb_role := Some "runner" |}
           sample_store _ "p9" "Eve" "runner" "ROOM01" 46000 46001
           (sample_request None)).
  - vm_compute. reflexivity.
  - apply sample_store_references.
  - reflexivity.
  - reflexivity.
Defined.

(** The hunter h2, who has sent no location, leaves the sample room; the
    runner r1, who has sent one, cannot leave when foreign keys are
    enforced. *)
Lemma leave_removes_player_witness :
  let db' := snd (post_leave true (Some "h2") sample_store) in
  fst (post_leave true (Some "h2") sample_store) = LeaveOk /\
  map p_id (players db') = ["h1"; "r1"; "r2"] /\
  locations db' = locations sample_store /\
  post_leave true (Some "r1") sample_store = (LeaveError, sample_store).
Proof.
  cbv zeta.
  destruct (leave_removes_player grid_distance true (Some "h2") sample_store)
    as [_ Hleave].
  destruct (Hleave "h2" eq_refl ltac:(discriminate)) as [_ Hfree].
  destruct (Hfree eq_refl) as (Hok & _ & Hp & Hl & _).
  destruct (leave_removes_player grid_distance true (Some "r1") sample_store)
    as [_ Hleave'].
  destruct (Hleave' "r1" eq_refl ltac:(discriminate)) as [Hblocked _].
  rewrite Hp, Hl. split; [exact Hok|]. split; [reflexivity|].
  split; [reflexivity|]. apply Hblocked. reflexivity.
Defined.

(** The sample room is started again at time 50000: ten seconds later the
    radius is the start radius again. *)
Lemma start_then_state_witness :
  match get_state grid_distance 60000 60001 (sample_request None)
          (snd (post_start 50000 "room01" sample_store)) with
  | (Some resp, _) => res_zoneRadius resp = 800
  | (None, _) => False
  end.
Proof.
  destruct (get_state grid_distance 60000 60001 (sample_request None)
              (snd (post_start 50000 "room01" sample_store)))
    as [[resp|] db''] eqn:E;
    [|vm_compute in E; discriminate E].
  destruct (start_then_state grid_distance 50000 "room01" sample_store)
    as [_ Hstart].
  destruct (Hstart sample_room eq_refl) as (_ & _ & _ & Hstate).
  destruct (Hstate 60000 60001 (sample_request None) resp db''
              eq_refl ltac:(discriminate) E) as (_ & _ & _ & _ & Hz).
  rewrite Hz. reflexivity.
Defined.

(** A room is created on the sample store under a new code. *)
Lemma create_then_state_witness :
  exists resp db'',
    get_state grid_distance 46000 46001
      {| q_room := "room02"; q_playerId := None; q_catchMeters := None |}
      (snd (post_rooms "ROOM02"
              {| b_startRadius := RInt 5; b_shrinkStepSec := RUndefined;
                 b_shrinkAmount := RUndefined |} sample_store))
    = (Some resp, db'') /\
    code (res_room resp) = "ROOM02" /\
    startedAt (res_room resp) = None /\
    startRadius (res_room resp) =
      sql_integer
        (cfg_startRadius
           (fst (post_rooms "ROOM02"
                   {| b_startRadius := RInt 5; b_shrinkStepSec := RUndefined;
                      b_shrinkAmount := RUndefined |} sample_store))) /\
    res_zoneRadius resp = int_or (startRadius (res_room resp)) 800 /\
    20 <= res_zoneRadius resp <= 100000.
Proof.
  apply (create_then_state grid_distance "ROOM02"
           {| b_startRadius := RInt 5; b_shrinkStepSec := RUndefined;
              b_shrinkAmount := RUndefined |}
           sample_store 46000 46001
           {| q_room := "room02"; q_playerId := None;
              q_catchMeters := None |}); reflexivity.
Defined.

(** On the sample store, once r1 is caught, a location update that moves
    it away and a new state request leave it caught. *)
Lemma caught_is_permanent_witness :
  let rs := [ Location 47000
                {| lb_playerId := Some "r1"; lb_lat := CNum (num_of_Z 50);
                   lb_lng := CNum (num_of_Z 50) |};
              State 48000 48001 (sample_request None) ] in
  let db1 := snd (get_state grid_distance 46000 46001 (sample_request None)
                    sample_store) in
  match find (fun p => (p_id p =? "r1")%string)
             (players (run grid_distance true rs db1)) with
  | Some p => p_status p = Some "caught"
  | None => False
  end.
Proof.
  cbv zeta.
  match goal with
  | |- match find ?f ?l with _ => _ end =>
      destruct (find f l) as [p|] eqn:E; [|vm_compute in E; discriminate E]
  end.
  apply find_some in E as [Hin Hid]. apply String.eqb_eq in Hid.
  revert p Hin Hid.
  apply (caught_is_permanent grid_distance true "r1").
  - intros r ts body [<-|[<-|[]]]; discriminate.
  - intros p Hp Hid. vm_compute in Hp.
    destruct Hp as [<-|[<-|[<-|[<-|[]]]]]; try discriminate Hid.
    reflexivity.
Defined.

(** The sample room is still there after a start and a leave. *)
Lemma rooms_persist_witness :
  exists x',
    In x' (rooms (run grid_distance true
                    [ StartRoom 50000 "room01"; Leave (Some "r1") ]
                    sample_store)) /\
    code x' = "ROOM01" /\ startRadius x' = Some 800 /\
    shrinkStepSec x' = Some 20 /\ shrinkAmount x' = Some 50.
Proof.
  apply (rooms_persist grid_distance true
           [ StartRoom 50000 "room01"; Leave (Some "r1") ]
           sample_store sample_room).
  simpl. now left.
Defined.

(** With foreign keys enforced, the runner r1 of the sample store is still
    there after it asks to leave. *)
Lemma located_player_stays_witness :
  In "r1" (map p_id (players (run grid_distance true [ Leave (Some "r1") ]
                                sample_store))) /\
  In "r1" (map l_playerId
             (locations (run grid_distance true [ Leave (Some "r1") ]
                           sample_store))).
Proof.
  apply (located_player_stays grid_distance "r1" [ Leave (Some "r1") ]
           sample_store); simpl; auto.
Defined.

(** A room is created, a runner joins it and sends a location: the
    location row belongs to the runner's row. *)
Lemma reachable_references_witness :
  let rs := [ CreateRoom "ROOM01"
                {| b_startRadius := RInt 800; b_shrinkStepSec := RInt 20;
                   b_shrinkAmount := RInt 50 |};
              Join "p1" 1000
                {| jb_room := Some "room01"; jb_name := NameStr "Ann";
                   jb_role := Some "runner" |};
              Location 2000
                {| lb_playerId := Some "p1"; lb_lat := CNum (num_of_Z 10);
                   lb_lng := CNum (num_of_Z 10) |} ] in
  exists p, In p (players (run grid_distance true rs empty_store)) /\
            p_id p = "p1".
Proof.
  cbv zeta.
  match goal with
  | |- context [run grid_distance true ?rs empty_store] =>
      destruct (reachable_references grid_distance true rs) as [Hloc _]
  end.
  apply (Hloc {| l_playerId := "p1"; l_lat := CNum (num_of_Z 10);
                 l_lng := CNum (num_of_Z 10); l_ts := 2000 |}).
  vm_compute. now left.
Defined.

(** On the sample store, a location update of the hunter h1 leaves the
    location of the runner r2 as it was. *)
Lemma location_update_frame_witness :
  let body := {| lb_playerId := Some "h1"; lb_lat := CNum (num_of_Z 12);
                 lb_lng := CNum (num_of_Z 13) |} in
  find (fun l => (l_playerId l =? "r2")%string)
       (locations (snd (post_location 2000 body sample_store))) =
  Some (sample_location "r2" 11 10).
Proof.
  cbv zeta.
  destruct (location_update_frame 2000
              {| lb_playerId := Some "h1"; lb_lat := CNum (num_of_Z 12);
                 lb_lng := CNum (num_of_Z 13) |} sample_store)
    as (_ & _ & Hother & _).
  cbv zeta in Hother. rewrite (Hother "r2"); [reflexivity|discriminate].
Defined.

(** Among a hunter, a runner on the same spot and a runner one degree
    away, no runner is strictly nearer to the hunter than the nearest
    opponent found. *)
Lemma nearest_opponent_witness :
  let ps := build_players (load_rows sample_store "ROOM01") in
  let h1 := {| id := "h1"; name := "Ann"; role := "hunter";
               status := "ready"; lastSeen := Some 1000;
               lat := CNum (num_of_Z 10); lng := CNum (num_of_Z 10);
               locTs := Some 1000 |} in
  let r2 := {| id := "r2"; name := "Cid"; role := "runner";
               status := "ready"; lastSeen := Some 1000;
               lat := CNum (num_of_Z 11); lng := CNum (num_of_Z 10);
               locTs := Some 1000 |} in
  num_lt (distMeters grid_distance (lat h1) (lng h1) (lat r2) (lng r2))
         (snd (nearestOpp grid_distance ps h1)) = false.
Proof.
  cbv zeta.
  match goal with
  | |- context [nearestOpp grid_distance ?ps ?p] =>
      destruct (nearest_opponent grid_distance ps p) as [_ Hmin]
  end.
  apply Hmin.
  - vm_compute. right. right. now left.
  - discriminate.
  - discriminate.
  - reflexivity.
  - reflexivity.
Defined.

